(** * SQL Lab initial state: [getInitialState] and [dedupeTabHistory]

    A shallow embedding of
    [superset-frontend/src/SqlLab/reducers/getInitialState.ts].

    The module reconciles the server bootstrap payload with the state an
    older SQL Lab left in the browser's [localStorage] under the key
    ["redux"].  The legacy state reaches the code through [JSON.parse] and a
    type assertion, so at run time it is an arbitrary JSON value: the
    embedding therefore works on untyped JavaScript values, with the
    language's own rules for property reads, spreading, truthiness, strict
    equality and own-property order, and with exceptions as an error
    result. *)

From Stdlib Require Import ZArith Strings.String Strings.Ascii DecimalString.
From Stdlib Require DecimalPos DecimalN DecimalZ.
From stdpp Require Import gmap strings list sorting.

Local Open Scope string_scope.
Local Open Scope Z_scope.
Local Open Scope list_scope.

Set Warnings "-register-all".

(** ** JavaScript values *)

(** The values [JSON.parse] can produce, plus [undefined].  [VNum n] is the
    number with the integer value [n]; non-integral numbers do not occur as
    identifiers and are outside the embedding.  A character of a [string]
    stands for one UTF-16 code unit in the range U+0000..U+00FF.  The
    properties of [VObj] are listed in own-property enumeration order (see
    [obj_put]); property names are pairwise distinct in every object the
    run time builds. *)
Inductive value : Type :=
  | VUndefined
  | VNull
  | VBool (b : bool)
  | VNum (n : Z)
  | VStr (s : string)
  | VArr (elems : list value)
  | VObj (props : list (string * value)).

(** An object as the list of its own enumerable properties. *)
Definition obj : Type := list (string * value).

(** ** Exceptions *)

Inductive error : Type :=
  | SyntaxError   (* thrown by [JSON.parse] *)
  | TypeError.    (* property read on null/undefined, call of a non-function,
                     spread of a non-iterable, property key without a
                     primitive form *)

Inductive result (A : Type) : Type :=
  | Ok (a : A)
  | Throw (e : error).
Arguments Ok {A} a.
Arguments Throw {A} e.

Definition bind {A B : Type} (r : result A) (k : A -> result B) : result B :=
  match r with
  | Ok a => k a
  | Throw e => Throw e
  end.

Notation "'let*' x ':=' e 'in' k" := (bind e (fun x => k))
  (at level 10, x pattern, e at level 200, k at level 200, only parsing).

(** [arr.forEach(f)] and [arr.reduce(f, a)] with a callback that may throw:
    the first exception ends the loop. *)
Fixpoint foldM {A B : Type} (f : A -> B -> result A) (l : list B) (a : A)
  : result A :=
  match l with
  | [] => Ok a
  | x :: l' => let* a' := f a x in foldM f l' a'
  end.

(** ** Numbers and strings *)

(** [Number.prototype.toString] on an integer. *)
Definition string_of_Z (n : Z) : string := NilZero.string_of_int (Z.to_int n).

(** The array indices: the canonical decimal strings of the integers
    0 .. 2^32 - 2.  [OrdinaryOwnPropertyKeys] lists the properties with such
    names first, in ascending numeric order. *)
Definition array_index (k : string) : option N :=
  match NilZero.uint_of_string k with
  | Some u =>
      let n := N.of_uint u in
      if String.eqb (NilZero.string_of_uint (N.to_uint n)) k
         && (n <? 4294967295)%N
      then Some n else None
  | None => None
  end.

Definition is_index (k : string) : bool :=
  match array_index k with Some _ => true | None => false end.

(** ** Objects as ordered property lists *)

Fixpoint obj_get (k : string) (o : obj) : option value :=
  match o with
  | [] => None
  | (k', v) :: o' => if String.eqb k k' then Some v else obj_get k o'
  end.

Definition obj_has (k : string) (o : obj) : bool :=
  match obj_get k o with Some _ => true | None => false end.

(** Overwriting an existing property keeps its place. *)
Fixpoint obj_replace (k : string) (v : value) (o : obj) : obj :=
  match o with
  | [] => []
  | (k', v') :: o' =>
      if String.eqb k k' then (k, v) :: o' else (k', v') :: obj_replace k v o'
  end.

(** A new array-index property goes after the smaller indices and before
    everything else. *)
Fixpoint obj_insert_index (i : N) (k : string) (v : value) (o : obj) : obj :=
  match o with
  | [] => [(k, v)]
  | (k', v') :: o' =>
      match array_index k' with
      | Some j =>
          if (j <? i)%N then (k', v') :: obj_insert_index i k v o'
          else (k, v) :: o
      | None => (k, v) :: o
      end
  end.

(** [CreateDataProperty]: what [{ ..., [k]: v }] and the spread do for each
    property.  A new name that is not an array index goes last. *)
Definition obj_put (k : string) (v : value) (o : obj) : obj :=
  if obj_has k o then obj_replace k v o
  else match array_index k with
       | Some i => obj_insert_index i k v o
       | None => o ++ [(k, v)]
       end.

(** [o[k] = v] on an ordinary object.  The name ["__proto__"], when it is not
    an own property, reaches the accessor of [Object.prototype] and creates
    no own property (it replaces the prototype of [o], which the embedding
    does not record). *)
Definition obj_assign (k : string) (v : value) (o : obj) : obj :=
  if String.eqb k "__proto__" && negb (obj_has k o) then o
  else obj_put k v o.

(** ** Operators *)

Definition truthy (v : value) : bool :=
  match v with
  | VUndefined | VNull => false
  | VBool b => b
  | VNum n => negb (n =? 0)
  | VStr s => negb (String.eqb s "")
  | VArr _ | VObj _ => true
  end.

Definition nullish (v : value) : bool :=
  match v with
  | VUndefined | VNull => true
  | _ => false
  end.

(** [a || b] and [a && b]. *)
Definition js_or (a b : value) : value := if truthy a then a else b.
Definition js_and (a b : value) : value := if truthy a then b else a.

(** [a === b].  Two objects or arrays are equal only when they are the same
    reference; the operands compared in this module always sit at different
    places of the parsed JSON tree, so they never are. *)
Definition strict_eq (a b : value) : bool :=
  match a, b with
  | VUndefined, VUndefined => true
  | VNull, VNull => true
  | VBool x, VBool y => Bool.eqb x y
  | VNum x, VNum y => (x =? y)
  | VStr x, VStr y => String.eqb x y
  | _, _ => false
  end.

(** The one-character strings of a string, in order. *)
Fixpoint chars (s : string) : list value :=
  match s with
  | EmptyString => []
  | String c s' => VStr (String c EmptyString) :: chars s'
  end.

(** [v.k] on a receiver that is neither null nor undefined.  Only own data
    properties (and [length]) are modelled: the names read in this module
    are not names of inherited properties. *)
Definition prop (v : value) (k : string) : value :=
  match v with
  | VObj ps => default VUndefined (obj_get k ps)
  | VArr l =>
      if String.eqb k "length" then VNum (Z.of_nat (length l))
      else match array_index k with
           | Some i => nth (N.to_nat i) l VUndefined
           | None => VUndefined
           end
  | VStr s =>
      if String.eqb k "length" then VNum (Z.of_nat (String.length s))
      else match array_index k with
           | Some i => nth (N.to_nat i) (chars s) VUndefined
           | None => VUndefined
           end
  | _ => VUndefined
  end.

(** [v.k]: a [TypeError] when [v] is null or undefined. *)
Definition get (v : value) (k : string) : result value :=
  if nullish v then Throw TypeError else Ok (prop v k).

(** [v?.k]. *)
Definition opt_chain (v : value) (k : string) : value :=
  if nullish v then VUndefined else prop v k.

(** [ToString], which is also [ToPropertyKey] on these values.  An object
    goes through [ToPrimitive] with the hint string.  For an ordinary object
    this ends in [Object.prototype.toString] and gives ["[object Object]"],
    unless the object has an own property [toString]: that property is found
    first, it is not callable (no parsed value is), [valueOf] yields no
    primitive either (an own one is not callable, the inherited one returns
    the object), and the conversion throws a [TypeError].  An array ends in
    [Array.prototype.join], which converts the elements in turn ([null] and
    [undefined] as the empty string) and throws when one of them does. *)
Fixpoint ToString (v : value) : result string :=
  match v with
  | VUndefined => Ok "undefined"
  | VNull => Ok "null"
  | VBool true => Ok "true"
  | VBool false => Ok "false"
  | VNum n => Ok (string_of_Z n)
  | VStr s => Ok s
  | VObj ps =>
      if obj_has "toString" ps then Throw TypeError else Ok "[object Object]"
  | VArr l =>
      (fix join (l : list value) : result string :=
         match l with
         | [] => Ok ""
         | x :: rest =>
             let* sx := match x with
                        | VUndefined | VNull => Ok ""
                        | _ => ToString x
                        end in
             match rest with
             | [] => Ok sx
             | _ :: _ =>
                 let* srest := join rest in Ok (sx +:+ "," +:+ srest)
             end
         end) l
  end.

(** The own enumerable properties a spread [{...v}] copies. *)
Definition indexed (l : list value) : obj :=
  imap (fun i x => (string_of_Z (Z.of_nat i), x)) l.

Definition own_enumerable (v : value) : obj :=
  match v with
  | VObj ps => ps
  | VArr l => indexed l
  | VStr s => indexed (chars s)
  | _ => []
  end.

(** [{ ...target, ...v }]: each property of [v] is put on the target. *)
Definition spread_into (target : obj) (v : value) : obj :=
  fold_left (fun acc kv => obj_put kv.1 kv.2 acc) (own_enumerable v) target.

(** [Object.values(v)]. *)
Definition Object_values (v : value) : result (list value) :=
  if nullish v then Throw TypeError else Ok (map snd (own_enumerable v)).

(** [f(...v)]: the elements the iterator of [v] yields. *)
Definition iterate (v : value) : result (list value) :=
  match v with
  | VArr l => Ok l
  | VStr s => Ok (chars s)
  | _ => Throw TypeError
  end.

(** The receiver of [v.forEach(...)] or [v.reduce(...)]: only arrays have
    these methods. *)
Definition as_array (v : value) : result (list value) :=
  match v with
  | VArr l => Ok l
  | _ => Throw TypeError
  end.

(** ** [dedupeTabHistory] *)

(** [result.slice(-1)[0]]: the last element, or [undefined]. *)
Definition last_or_undefined (l : list value) : value :=
  default VUndefined (last l).

(** [result.concat(x)]: an array argument is spread by one level. *)
Definition concat1 (l : list value) (x : value) : list value :=
  match x with
  | VArr xs => l ++ xs
  | _ => l ++ [x]
  end.

(** The reducer: [result.slice(-1)[0] === tabId ? result : result.concat(tabId)]. *)
Definition dedupe_step (result : list value) (tabId : value) : list value :=
  if strict_eq (last_or_undefined result) tabId then result
  else concat1 result tabId.

Definition dedupeTabHistory (tabHistory : list value) : list value :=
  fold_left dedupe_step tabHistory [].

(** ** The server bootstrap payload *)

(** Modelled from the spec: the type declarations [BootstrapData]
    (src/types/bootstrapTypes) and [InitialState]
    (src/hooks/apiResources/sqlLab) are imported by the module and are not
    part of the sources at hand.  The records below follow the input contract
    of the specification (section 6) and the way the code uses each field:
    identifiers that are compared or printed are numbers, [description] is an
    object or [null], every other field is carried as a value. *)
Module TabStateId.
Record t : Type := { id : Z; label : value }.
End TabStateId.

Module TableSchema.
Record t : Type := {
  id : Z;
  table : value;
  description : option obj;   (* [None] is [null] *)
  schema : value;
  tab_state_id : Z;
  database_id : value;
  expanded : value
}.
End TableSchema.

Module ActiveTab.
Record t : Type := {
  id : Z;
  label : value;
  sql : value;
  latest_query : value;
  saved_query : value;
  autorun : value;
  template_params : value;
  database_id : value;
  schema : value;
  query_limit : value;
  hide_left_bar : value;
  table_schemas : list TableSchema.t
}.
End ActiveTab.

Module Common.
Record t : Type := { conf : obj; flash_messages : value }.
End Common.

Module BootstrapData.
Record t : Type := {
  common : Common.t;
  active_tab : option ActiveTab.t;
  tab_state_ids : option (list TabStateId.t);   (* [None]: the default [[]] *)
  databases : value;
  queries : value;                               (* may be [undefined] *)
  user : value
}.
End BootstrapData.

(** ** The returned state *)

Module SqlLab.
Record t : Type := {
  activeSouthPaneTab : string;
  alerts : list value;
  databases : value;
  offline : bool;
  queries : obj;
  queryEditors : list value;
  tabHistory : list value;
  tables : list value;
  queriesLastUpdate : Z;
  editorTabLastUpdatedAt : Z;
  queryCostEstimates : obj;
  unsavedQueryEditor : value
}.
End SqlLab.

Module State.
Record t : Type := {
  sqlLab : SqlLab.t;
  messageToasts : value;
  localStorageUsageInKilobytes : Z;
  common : Common.t;
  user : value
}.
End State.

(** ** The environment *)

(** The collaborators the module imports or calls: the translation function
    [t], the toast converter, and the two readings of the clock. *)
Record Runtime : Type := {
  t : string -> string;
  getToastsFromPyFlashMessages : value -> value;
  Date_now_editorTab : Z;     (* [Date.now()] for [editorTabLastUpdatedAt] *)
  Date_now_queries : Z        (* [Date.now()] for [queriesLastUpdate] *)
}.

(** What a [localStorage] slot holds, by what the code observes of it: whether
    the text is empty, and what [JSON.parse] makes of it. *)
Inductive stored : Type :=
  | EmptyText                (* the empty string *)
  | Malformed                (* a text that is not JSON *)
  | JsonText (v : value).    (* a JSON text, with the value it denotes *)

Abbreviation Storage := (gmap string stored).

(** [localStorage.getItem(k)]: [None] is [null]. *)
Definition getItem (k : string) (ls : Storage) : option stored := ls !! k.

(** [localStorage.removeItem(k)]. *)
Definition removeItem (k : string) (ls : Storage) : Storage := delete k ls.

Definition text_truthy (d : option stored) : bool :=
  match d with
  | None | Some EmptyText => false
  | Some _ => true
  end.

Definition JSON_parse (d : stored) : result value :=
  match d with
  | JsonText v => Ok v
  | EmptyText | Malformed => Throw SyntaxError
  end.

(** ** Stage 1: editors from the server *)

Definition newline : string := String (ascii_of_nat 10) EmptyString.

Definition defaultQueryEditor (rt : Runtime) (common : Common.t) : obj :=
  [ ("loaded", VBool true);
    ("name", VStr (t rt "Untitled query"));
    ("sql", VStr ("SELECT *" +:+ newline +:+ "FROM" +:+ newline +:+ "WHERE"));
    ("latestQueryId", VNull);
    ("autorun", VBool false);
    ("dbId", prop (VObj (Common.conf common)) "SQLLAB_DEFAULT_DBID");
    ("queryLimit", prop (VObj (Common.conf common)) "DEFAULT_SQLLAB_LIMIT");
    ("hideLeftBar", VBool false);
    ("remoteId", VNull) ].

(** The editor built from the active tab (lines 75-91). *)
Definition activeQueryEditor (id : Z) (activeTab : ActiveTab.t) : obj :=
  [ ("id", VStr (string_of_Z id));
    ("loaded", VBool true);
    ("name", ActiveTab.label activeTab);
    ("sql", js_or (ActiveTab.sql activeTab) (VStr ""));
    ("selectedText", VUndefined);
    ("latestQueryId",
      if truthy (ActiveTab.latest_query activeTab)
      then prop (ActiveTab.latest_query activeTab) "id"
      else VNull);
    ("remoteId", js_or (opt_chain (ActiveTab.saved_query activeTab) "id") VNull);
    ("autorun", VBool (truthy (ActiveTab.autorun activeTab)));
    ("templateParams", js_or (ActiveTab.template_params activeTab) VUndefined);
    ("dbId", ActiveTab.database_id activeTab);
    ("schema", ActiveTab.schema activeTab);
    ("queryLimit", ActiveTab.query_limit activeTab);
    ("hideLeftBar", ActiveTab.hide_left_bar activeTab) ].

(** The placeholder for a tab that is not the active one (lines 94-99). *)
Definition placeholderQueryEditor (rt : Runtime) (common : Common.t)
    (id : Z) (label : value) : obj :=
  obj_put "name" label
    (obj_put "loaded" (VBool false)
      (obj_put "id" (VStr (string_of_Z id))
        (spread_into [] (VObj (defaultQueryEditor rt common))))).

(** The body of [tabStateIds.forEach] (lines 72-105).  The computed key
    [queryEditor.id] is, in both branches, the string [id.toString()], which
    is a property name as it stands. *)
Definition addServerEditor (rt : Runtime) (common : Common.t)
    (activeTab : option ActiveTab.t) (queryEditors : obj) (tab : TabStateId.t)
  : obj :=
  let id := TabStateId.id tab in
  let queryEditor :=
    match activeTab with
    | Some a =>
        if ActiveTab.id a =? id then activeQueryEditor id a
        else placeholderQueryEditor rt common id (TabStateId.label tab)
    | None => placeholderQueryEditor rt common id (TabStateId.label tab)
    end in
  obj_put (string_of_Z id) (VObj queryEditor)
    (spread_into [] (VObj queryEditors)).

Definition serverQueryEditors (rt : Runtime) (boot : BootstrapData.t) : obj :=
  fold_left
    (addServerEditor rt (BootstrapData.common boot)
       (BootstrapData.active_tab boot))
    (default [] (BootstrapData.tab_state_ids boot)) [].

(** ** Stage 2: tables of the active tab *)

(** [const { k, ...rest } = o]: the rest object. *)
Definition obj_rest (k : string) (o : obj) : obj :=
  spread_into [] (VObj (List.filter (fun kv => negb (String.eqb kv.1 k)) o)).

(** The table built from a schema entry and its description
    (lines 114-125). *)
Definition serverTable (tableSchema : TableSchema.t) (description : obj) : obj :=
  [ ("dbId", TableSchema.database_id tableSchema);
    ("queryEditorId", VStr (string_of_Z (TableSchema.tab_state_id tableSchema)));
    ("schema", TableSchema.schema tableSchema);
    ("name", TableSchema.table tableSchema);
    ("expanded", TableSchema.expanded tableSchema);
    ("id", VNum (TableSchema.id tableSchema));
    ("dataPreviewQueryId", prop (VObj description) "dataPreviewQueryId");
    ("persistData", VObj (obj_rest "dataPreviewQueryId" description));
    ("initialized", VBool true) ].

(** [table_schemas.filter(tableSchema => tableSchema.description !== null)]:
    the entries that pass, each with its description. *)
Definition described (schemas : list TableSchema.t)
  : list (TableSchema.t * obj) :=
  omap (fun tableSchema =>
          pair tableSchema <$> TableSchema.description tableSchema) schemas.

(** The body of the [forEach] (lines 113-130).  The computed key [table.id]
    is the number [tableSchema.id], whose property name is its decimal
    form. *)
Definition addServerTable (tables : obj) (entry : TableSchema.t * obj) : obj :=
  let table := serverTable entry.1 entry.2 in
  obj_put (string_of_Z (TableSchema.id entry.1)) (VObj table)
    (spread_into [] (VObj tables)).

Definition serverTables (activeTab : option ActiveTab.t) : obj :=
  match activeTab with
  | Some a =>
      fold_left addServerTable (described (ActiveTab.table_schemas a)) []
  | None => []
  end.

(** [const tabHistory = activeTab ? [activeTab.id.toString()] : []]. *)
Definition serverTabHistory (activeTab : option ActiveTab.t) : list value :=
  match activeTab with
  | Some a => [VStr (string_of_Z (ActiveTab.id a))]
  | None => []
  end.

(** ** Stage 3: the legacy overlay *)

(** The editor object written for a legacy entry [qe] (lines 157-164);
    [existing] is [queryEditors[qe.id]]. *)
Definition mergedQueryEditor (unsavedQueryEditor existing qe : value) : obj :=
  let e0 := spread_into [] existing in
  let e1 := spread_into e0 qe in
  let e2 := obj_put "name" (js_or (prop qe "title") (prop qe "name")) e1 in
  let e3 :=
    spread_into e2
      (js_and (VBool (strict_eq (prop unsavedQueryEditor "id") (prop qe "id")))
              unsavedQueryEditor) in
  let e4 := obj_put "inLocalStorage" (VBool true) e3 in
  obj_put "loaded" (VBool true) e4.

(** [queryEditors[k]], with [undefined] for a name that is not there.  (For a
    name inherited from [Object.prototype] the read yields a function, or the
    prototype itself; the value read here is only ever spread, and the spread
    copies nothing from either, as from [undefined].) *)
Definition obj_get_value (k : string) (o : obj) : value :=
  default VUndefined (obj_get k o).

(** The body of [sqlLab.queryEditors.forEach] (lines 154-166).  The
    computed key [[qe.id]] is converted to a property name, which throws for
    an id that has no primitive form. *)
Definition mergeQueryEditor (unsavedQueryEditor : value) (queryEditors : obj)
    (qe : value) : result obj :=
  let copy := spread_into [] (VObj queryEditors) in
  let* qe_id := get qe "id" in
  let* key := ToString qe_id in
  Ok (obj_put key
        (VObj (mergedQueryEditor unsavedQueryEditor
                 (obj_get_value key queryEditors) qe))
        copy).

(** [expandedTables.has(x)] on the set kept as the list of its elements;
    [SameValueZero] agrees with [===] on the values at hand. *)
Definition Set_has (x : value) (elements : list value) : bool :=
  existsb (strict_eq x) elements.

(** The table object written for a legacy entry [table] (lines 175-179);
    [existing] is [tables[table.id]]. *)
Definition mergedTable (existing table : value) (expanded : bool) : obj :=
  let t0 := spread_into [] existing in
  let t1 := spread_into t0 table in
  obj_put "expanded" (VBool expanded) t1.

(** The reducer of [sqlLab.tables.reduce] (lines 168-181), with the set
    [expandedTables] it updates threaded next to the accumulator; [tables] is
    the table map as it was before the reduction. *)
Definition mergeTable (tables : obj) (acc : list value * obj) (table : value)
  : result (list value * obj) :=
  let (expandedTables, merged) := acc in
  let* queryEditorId := get table "queryEditorId" in
  let expanded := negb (Set_has queryEditorId expandedTables) in
  let expandedTables' :=
    if expanded then expandedTables ++ [queryEditorId] else expandedTables in
  let copy := spread_into [] (VObj merged) in
  let* key := ToString (prop table "id") in
  Ok (expandedTables',
      obj_put key (VObj (mergedTable (obj_get_value key tables) table expanded))
        copy).

(** [{ ...query, inLocalStorage: true }]. *)
Definition stampedQuery (query : value) : obj :=
  obj_put "inLocalStorage" (VBool true) (spread_into [] query).

(** The body of [Object.values(sqlLab.queries).forEach] (line 183). *)
Definition mergeQuery (queries : obj) (query : value) : result obj :=
  let* query_id := get query "id" in
  let* key := ToString query_id in
  Ok (obj_assign key (VObj (stampedQuery query)) queries).

(** The variables the function has built when it reaches its [return]. *)
Record Merged : Type := {
  m_queryEditors : obj;
  m_tables : obj;
  m_queries : obj;
  m_tabHistory : list value;
  m_unsavedQueryEditor : value
}.

(** Lines 54-133: the state loaded from the backend. *)
Definition serverState (rt : Runtime) (boot : BootstrapData.t) : Merged :=
  {| m_queryEditors := serverQueryEditors rt boot;
     m_tables := serverTables (BootstrapData.active_tab boot);
     m_queries := spread_into [] (BootstrapData.queries boot);
     m_tabHistory := serverTabHistory (BootstrapData.active_tab boot);
     m_unsavedQueryEditor := VObj [] |}.

(** The [else] branch of lines 150-186. *)
Definition overlayLegacy (sqlLab : value) (s : Merged) : result Merged :=
  let unsavedQueryEditor :=
    js_or (prop sqlLab "unsavedQueryEditor") (m_unsavedQueryEditor s) in
  let* legacyEditors := as_array (prop sqlLab "queryEditors") in
  let* queryEditors :=
    foldM (mergeQueryEditor unsavedQueryEditor) legacyEditors
      (m_queryEditors s) in
  let* legacyTables := as_array (prop sqlLab "tables") in
  let* reduced := foldM (mergeTable (m_tables s)) legacyTables ([], m_tables s) in
  let* legacyQueries := Object_values (prop sqlLab "queries") in
  let* queries := foldM mergeQuery legacyQueries (m_queries s) in
  let* legacyHistory := iterate (prop sqlLab "tabHistory") in
  Ok {| m_queryEditors := queryEditors;
        m_tables := reduced.2;
        m_queries := queries;
        m_tabHistory := m_tabHistory s ++ legacyHistory;
        m_unsavedQueryEditor := unsavedQueryEditor |}.

(** Lines 140-187: read the legacy slot and overlay it, or clear it. *)
Definition reconcile (rt : Runtime) (boot : BootstrapData.t) (ls : Storage)
  : result (Merged * Storage) :=
  let s := serverState rt boot in
  let localStorageData := getItem "redux" ls in
  let* sqlLabCacheData :=
    match localStorageData with
    | Some text => if text_truthy localStorageData then JSON_parse text
                   else Ok VUndefined
    | None => Ok VUndefined
    end in
  if text_truthy localStorageData && truthy (opt_chain sqlLabCacheData "sqlLab")
  then
    let sqlLab := prop sqlLabCacheData "sqlLab" in
    let* editorCount := get (prop sqlLab "queryEditors") "length" in
    if strict_eq editorCount (VNum 0) then
      (* migration was successful *)
      Ok (s, removeItem "redux" ls)
    else
      let* s' := overlayLegacy sqlLab s in Ok (s', ls)
  else Ok (s, ls).

(** ** Stage 4: assembly *)

(** The [return] expression (lines 189-213). *)
Definition assemble (rt : Runtime) (boot : BootstrapData.t) (s : Merged)
  : State.t :=
  let common := BootstrapData.common boot in
  {| State.sqlLab :=
       {| SqlLab.activeSouthPaneTab := "Results";
          SqlLab.alerts := [];
          SqlLab.databases := BootstrapData.databases boot;
          SqlLab.offline := false;
          SqlLab.queries := m_queries s;
          SqlLab.queryEditors := map snd (m_queryEditors s);
          SqlLab.tabHistory := dedupeTabHistory (m_tabHistory s);
          SqlLab.tables := map snd (m_tables s);
          SqlLab.queriesLastUpdate := Date_now_queries rt;
          SqlLab.editorTabLastUpdatedAt := Date_now_editorTab rt;
          SqlLab.queryCostEstimates := [];
          SqlLab.unsavedQueryEditor := m_unsavedQueryEditor s |};
     State.messageToasts :=
       getToastsFromPyFlashMessages rt
         (js_or (Common.flash_messages common) (VArr []));
     State.localStorageUsageInKilobytes := 0;
     State.common :=
       {| Common.flash_messages := Common.flash_messages common;
          Common.conf := Common.conf common |};
     State.user := BootstrapData.user boot |}.

(** [getInitialState]: the returned state, and [localStorage] as the call
    leaves it; or the exception that reaches the caller. *)
Definition getInitialState (rt : Runtime) (boot : BootstrapData.t)
    (ls : Storage) : result (State.t * Storage) :=
  let* r := reconcile rt boot ls in
  Ok (assemble rt boot r.1, r.2).

(** * Specification-level definitions *)

(** The property names of an object. *)
Definition keys (o : obj) : list string := map fst o.

(** A value of the expected shape of an entity: an object (whose property
    names are pairwise distinct, as in every object). *)
Definition is_record (v : value) : Prop :=
  exists ps, v = VObj ps /\ NoDup (keys ps).

(** [keyed_write k v o o']: [o'] is [o] with the entry [k] set to [v]. *)
Definition keyed_write (k : string) (v : value) (o o' : obj) : Prop :=
  NoDup (keys o')
  /\ forall k', obj_get k' o' = if String.eqb k' k then Some v else obj_get k' o.

(** [top] laid over [below]: the overlay wins where it has a value. *)
Definition overlay (top below : option value) : option value :=
  match top with
  | Some v => Some v
  | None => below
  end.

(** The entry of a map under a name, when it is an object. *)
Definition existing_record (k : string) (o : obj) : option obj :=
  match obj_get k o with
  | Some (VObj ps) => Some ps
  | _ => None
  end.

(** The property name a value stands for when it is used as a key.  (For a
    value that has none the conversion throws and nothing is filed; the empty
    name is given then.) *)
Definition key_name (v : value) : string :=
  match ToString v with
  | Ok k => k
  | Throw _ => ""
  end.

(** The name under which a legacy editor is merged: its [id]. *)
Definition editor_key (qe : value) : string := key_name (prop qe "id").

(** Whether the unsaved patch belongs to the legacy editor [qe]: their ids
    are equal. *)
Definition patch_applies (unsavedQueryEditor qe : value) : bool :=
  strict_eq (prop unsavedQueryEditor "id") (prop qe "id").

(** The legacy [title], when the entry carries one. *)
Definition legacy_title (legacy : obj) : option value :=
  obj_get "title" legacy.

(** The editor overlay in the words of the specification, field by field:
    the existing entry first, the legacy fields over it, the legacy [title]
    mapped onto [name], the unsaved patch (when it is the patch of this
    editor) over that, and the two stamps on top. *)
Definition editor_field_spec (existing : option obj) (legacy : obj)
    (patch : option obj) (f : string) : option value :=
  if String.eqb f "loaded" || String.eqb f "inLocalStorage"
  then Some (VBool true)
  else
    overlay (patch ≫= obj_get f)
      (overlay (if String.eqb f "name" then legacy_title legacy else None)
         (overlay (obj_get f legacy) (existing ≫= obj_get f))).

(** The name the code gives a merged editor, before the unsaved patch:
    [qe.title || qe.name], which is [undefined] for an entry with neither. *)
Definition legacy_name (legacy : obj) : value :=
  js_or (prop (VObj legacy) "title") (prop (VObj legacy) "name").

(** The editor overlay as the code performs it, field by field: as in
    [editor_field_spec], except that [name] is always set to [legacy_name],
    whatever name the existing entry had. *)
Definition editor_overlay_field (existing : option obj) (legacy : obj)
    (patch : option obj) (f : string) : option value :=
  if String.eqb f "loaded" || String.eqb f "inLocalStorage"
  then Some (VBool true)
  else
    overlay (patch ≫= obj_get f)
      (if String.eqb f "name" then Some (legacy_name legacy)
       else overlay (obj_get f legacy) (existing ≫= obj_get f)).

(** A legacy editor that carries its name where the code looks for it: a
    [title] that counts as true (a non-empty string), or no [title] and a
    [name]. *)
Definition named (legacy : obj) : bool :=
  match obj_get "title" legacy with
  | Some title => truthy title
  | None => obj_has "name" legacy
  end.

(** The contract of the specification, in its words: every maximal run of
    consecutive equal ids is collapsed to a single occurrence. *)
Fixpoint collapse_runs (ids : list string) : list string :=
  match ids with
  | [] => []
  | x :: rest =>
      match rest with
      | [] => [x]
      | y :: _ =>
          if String.eqb x y then collapse_runs rest
          else x :: collapse_runs rest
      end
  end.



(** The name under which a legacy table is merged, and the editor that
    owns it. *)
Definition table_key (table : value) : string := key_name (prop table "id").
Definition owner (table : value) : value := prop table "queryEditorId".

(** The tie-break in the words of the specification: a table is expanded
    exactly when no table met earlier in the scan has its [queryEditorId]. *)
Definition first_for_editor (earlier : list value) (table : value) : bool :=
  negb (existsb (fun t' => strict_eq (owner table) (owner t')) earlier).

(** The scan of the legacy tables: each table with the flag the reducer
    computes for it, [seen] being the set [expandedTables] so far. *)
Fixpoint expansion (seen : list value) (legacy : list value)
  : list (value * bool) :=
  match legacy with
  | [] => []
  | table :: rest =>
      let expanded := negb (Set_has (owner table) seen) in
      (table, expanded)
        :: expansion (if expanded then seen ++ [owner table] else seen) rest
  end.

(** What the reducer writes for a table and its flag. *)
Definition write_table (tables merged : obj) (te : value * bool) : obj :=
  obj_put (table_key te.1)
    (VObj (mergedTable (obj_get_value (table_key te.1) tables) te.1 te.2))
    (spread_into [] (VObj merged)).

(** The set [expandedTables] after the scan of [legacy]. *)
Fixpoint seen_after (seen : list value) (legacy : list value) : list value :=
  match legacy with
  | [] => seen
  | table :: rest =>
      seen_after (if negb (Set_has (owner table) seen)
                  then seen ++ [owner table] else seen) rest
  end.

(** The [expanded] flag of a table object. *)
Definition is_expanded (table : obj) : bool :=
  match obj_get "expanded" table with
  | Some (VBool true) => true
  | _ => false
  end.

(** The name under which a legacy query is merged: its [id]. *)
Definition query_key (query : value) : string := key_name (prop query "id").

(** The state computed from the server-sourced inputs alone. *)
Definition serverOnly (rt : Runtime) (boot : BootstrapData.t) : State.t :=
  assemble rt boot (serverState rt boot).

(** The legacy state that gets overlaid, if any: the [sqlLab] member of the
    JSON value in the slot, when it is there and its editor list is not
    empty. *)
Definition legacy_sqlLab (ls : Storage) : option value :=
  match getItem "redux" ls with
  | Some (JsonText v) =>
      let sqlLab := opt_chain v "sqlLab" in
      if truthy sqlLab
         && negb (strict_eq (prop (prop sqlLab "queryEditors") "length")
                    (VNum 0))
      then Some sqlLab else None
  | _ => None
  end.

(** The slots the code treats as the absence of legacy state: no slot, an
    empty text, or a JSON value without a (truthy) [sqlLab] member. *)
Definition treated_as_absent (slot : option stored) : bool :=
  match slot with
  | None | Some EmptyText => true
  | Some Malformed => false
  | Some (JsonText v) => negb (truthy (opt_chain v "sqlLab"))
  end.

(** ** Own-property order *)

(** [key_before k1 k2]: the name [k1] may come before [k2] when the
    properties of an object are listed: array indices come first, in
    ascending numeric order; the other names follow (in the order of their
    creation, which this relation leaves open). *)
Definition key_before (k1 k2 : string) : Prop :=
  match array_index k1, array_index k2 with
  | Some i, Some j => (i < j)%N
  | Some _, None => True
  | None, Some _ => False
  | None, None => True
  end.

Definition non_index (k : string) : bool := negb (is_index k).

(** The names of a sequence of writes in the order of their first
    appearance. *)
Fixpoint first_appearances (K : list string) : list string :=
  match K with
  | [] => []
  | k :: K' =>
      k :: List.filter (fun k' => negb (String.eqb k' k)) (first_appearances K')
  end.

(** [enumerates K ks]: [ks] lists the names written by the sequence of
    writes [K] in own-property order: each name once, the array indices
    first in ascending numeric order, then the other names in insertion
    order. *)
Definition enumerates (K ks : list string) : Prop :=
  NoDup ks
  /\ (forall k, k ∈ ks <-> k ∈ K)
  /\ StronglySorted key_before ks
  /\ List.filter non_index ks = first_appearances (List.filter non_index K).

(** The list under a member of the overlaid legacy state. *)
Definition legacy_list (member : string) (ls : Storage) : list value :=
  match legacy_sqlLab ls with
  | Some sqlLab =>
      match prop sqlLab member with
      | VArr l => l
      | _ => []
      end
  | None => []
  end.

(** The legacy tab history that is appended, if any. *)
Definition legacy_history (ls : Storage) : list value :=
  match legacy_sqlLab ls with
  | Some sqlLab =>
      match iterate (prop sqlLab "tabHistory") with
      | Ok l => l
      | Throw _ => []
      end
  | None => []
  end.

(** The legacy queries that are merged, if any: the values of
    [sqlLab.queries]. *)
Definition legacy_queries (ls : Storage) : list value :=
  match legacy_sqlLab ls with
  | Some sqlLab => map snd (own_enumerable (prop sqlLab "queries"))
  | None => []
  end.

(** The unsaved patch in force during the overlay: the legacy
    [unsavedQueryEditor] when the legacy state is overlaid and has one, the
    empty object otherwise. *)
Definition unsaved_patch (ls : Storage) : value :=
  match legacy_sqlLab ls with
  | Some sqlLab => js_or (prop sqlLab "unsavedQueryEditor") (VObj [])
  | None => VObj []
  end.



(** * Sample inputs *)

Module Sample.
(** A runtime: untranslated labels, flash messages passed as toasts. *)
Definition rt : Runtime :=
  {| t := fun s => s;
     getToastsFromPyFlashMessages := fun messages => messages;
     Date_now_editorTab := 1700000000000;
     Date_now_queries := 1700000000001 |}.

Definition common : Common.t :=
  {| Common.conf := [("SQLLAB_DEFAULT_DBID", VNum 1);
                     ("DEFAULT_SQLLAB_LIMIT", VNum 1000)];
     Common.flash_messages := VArr [] |}.

(** A payload without an active tab. *)
Definition boot (tabs : list TabStateId.t) : BootstrapData.t :=
  {| BootstrapData.common := common;
     BootstrapData.active_tab := None;
     BootstrapData.tab_state_ids := Some tabs;
     BootstrapData.databases := VObj [];
     BootstrapData.queries := VUndefined;
     BootstrapData.user := VObj [] |}.

Definition tab (id : Z) (label : string) : TabStateId.t :=
  {| TabStateId.id := id; TabStateId.label := VStr label |}.

(** The legacy slot holding the JSON text of [{ sqlLab }]. *)
Definition legacy (sqlLab : value) : Storage :=
  {[ "redux" := JsonText (VObj [("sqlLab", sqlLab)]) ]}.

(** Server editor [{id: 5, name: "Query 5"}]. *)
Definition boot5 : BootstrapData.t := boot [tab 5 "Query 5"].

(** Legacy editor [{id: 5, title: "Renamed"}]. *)
Definition renamed : obj := [("id", VNum 5); ("title", VStr "Renamed")].
End Sample.

Module SampleTables.
(** Legacy tables [{id:1,queryEditorId:"A"}, {id:2,queryEditorId:"A"},
    {id:3,queryEditorId:"B"}]; the second one claims to be expanded. *)
Definition legacy : list value :=
  [ VObj [("id", VNum 1); ("queryEditorId", VStr "A")];
    VObj [("id", VNum 2); ("queryEditorId", VStr "A");
          ("expanded", VBool true)];
    VObj [("id", VNum 3); ("queryEditorId", VStr "B")] ].
End SampleTables.

Module SampleQueries.
(** Server queries [{q1: {id: "q1", status: "success"}}]. *)
Definition server : obj :=
  [("q1", VObj [("id", VStr "q1"); ("status", VStr "success")])].

(** The values of the legacy queries [{q1: {id: "q1", status: "failed"}}]. *)
Definition failed : obj := [("id", VStr "q1"); ("status", VStr "failed")].
End SampleQueries.

Module SampleTab.
(** A description with a preview query and one more key. *)
Definition description : obj :=
  [("columns", VArr []); ("dataPreviewQueryId", VStr "preview1")].

Definition described_schema : TableSchema.t :=
  {| TableSchema.id := 7;
     TableSchema.table := VStr "orders";
     TableSchema.description := Some description;
     TableSchema.schema := VStr "public";
     TableSchema.tab_state_id := 5;
     TableSchema.database_id := VNum 1;
     TableSchema.expanded := VBool false |}.

Definition undescribed_schema : TableSchema.t :=
  {| TableSchema.id := 8;
     TableSchema.table := VStr "customers";
     TableSchema.description := None;
     TableSchema.schema := VStr "public";
     TableSchema.tab_state_id := 5;
     TableSchema.database_id := VNum 1;
     TableSchema.expanded := VBool true |}.

Definition active : ActiveTab.t :=
  {| ActiveTab.id := 5;
     ActiveTab.label := VStr "Query 5";
     ActiveTab.sql := VStr "SELECT 1";
     ActiveTab.latest_query := VNull;
     ActiveTab.saved_query := VNull;
     ActiveTab.autorun := VBool false;
     ActiveTab.template_params := VNull;
     ActiveTab.database_id := VNum 1;
     ActiveTab.schema := VStr "public";
     ActiveTab.query_limit := VNum 1000;
     ActiveTab.hide_left_bar := VBool false;
     ActiveTab.table_schemas := [described_schema; undescribed_schema] |}.
End SampleTab.

Module SampleUnsaved.
(** In-flight edits to the editor ["x"]. *)
Definition patch : obj := [("id", VStr "x"); ("sql", VStr "SELECT 2")].

Definition editor_x : value := VObj [("id", VStr "x"); ("name", VStr "X")].
Definition editor_y : value := VObj [("id", VStr "y"); ("name", VStr "Y")].

(** A legacy state with two editors and the patch for the first. *)
Definition sqlLab : value :=
  VObj [ ("queryEditors", VArr [editor_x; editor_y]);
         ("unsavedQueryEditor", VObj patch);
         ("tables", VArr []);
         ("queries", VObj []);
         ("tabHistory", VArr [VStr "x"; VStr "y"]) ].
End SampleUnsaved.

Module SampleOrder.
(** Server tabs created in the order 10, 2. *)
Definition boot : BootstrapData.t :=
  Sample.boot [Sample.tab 10 "b"; Sample.tab 2 "a"].

(** Legacy editors ["x"] and ["1"], and a history that visits ["x"] twice in
    a row. *)
Definition sqlLab : value :=
  VObj [ ("queryEditors",
          VArr [ VObj [("id", VStr "x"); ("name", VStr "X")];
                 VObj [("id", VStr "1"); ("name", VStr "One")] ]);
         ("tables", VArr []);
         ("queries", VObj []);
         ("tabHistory", VArr [VStr "x"; VStr "x"; VStr "1"]) ].
End SampleOrder.

Module SampleRun.
(** The tab 5 and the query [q1] on the server; the renamed editor, the
    three tables and the failed query [q1] in the legacy slot. *)
Definition boot : BootstrapData.t :=
  {| BootstrapData.common := Sample.common;
     BootstrapData.active_tab := None;
     BootstrapData.tab_state_ids := Some [Sample.tab 5 "Query 5"];
     BootstrapData.databases := VObj [];
     BootstrapData.queries := VObj SampleQueries.server;
     BootstrapData.user := VObj [] |}.

Definition sqlLab : value :=
  VObj [ ("queryEditors", VArr [VObj Sample.renamed]);
         ("tables", VArr SampleTables.legacy);
         ("queries", VObj [("q1", VObj SampleQueries.failed)]);
         ("tabHistory", VArr [VStr "5"]) ].
End SampleRun.

(** * Further specification-level definitions *)

(** The values [concat] appends as one element: everything but arrays. *)
Definition not_array (v : value) : bool :=
  match v with
  | VArr _ => false
  | _ => true
  end.

(** The values a parsed history holds when none of its elements is an array:
    [JSON.parse] never yields [undefined]. *)
Definition plain (v : value) : bool :=
  match v with
  | VArr _ | VUndefined => false
  | _ => true
  end.

(** The clean-slate test of line 147, on the slot: the parsed value has a
    [sqlLab] member whose [queryEditors.length] is [0]. *)
Definition clean_slate (ls : Storage) : bool :=
  match getItem "redux" ls with
  | Some (JsonText v) =>
      truthy (opt_chain v "sqlLab")
      && strict_eq (prop (prop (opt_chain v "sqlLab") "queryEditors") "length")
           (VNum 0)
  | _ => false
  end.

(** The values that have a property name: those [ToString] converts. *)
Definition keyable (v : value) : bool :=
  match ToString v with
  | Ok _ => true
  | Throw _ => false
  end.

(** The entries a loop of the overlay gets through: neither [null] nor
    [undefined], with an [id] that has a property name. *)
Definition mergeable (x : value) : bool :=
  negb (nullish x) && keyable (prop x "id").

(** The legacy states the overlay gets through: [queryEditors] and [tables]
    are arrays, [queries] is there, all their entries are mergeable, and
    [tabHistory] can be spread into a call (an array, or a string). *)
Definition well_shaped (sqlLab : value) : bool :=
  match prop sqlLab "queryEditors", prop sqlLab "tables" with
  | VArr editors, VArr tables =>
      forallb mergeable editors
      && forallb mergeable tables
      && negb (nullish (prop sqlLab "queries"))
      && forallb mergeable (map snd (own_enumerable (prop sqlLab "queries")))
      && match prop sqlLab "tabHistory" with
         | VArr _ | VStr _ => true
         | _ => false
         end
  | _, _ => false
  end.

Module SampleShapes.
(** A complete legacy state. *)
Definition complete : value :=
  VObj [ ("queryEditors", VArr [VObj [("id", VStr "x")]]);
         ("tables", VArr []);
         ("queries", VObj []);
         ("tabHistory", VArr [VStr "x"]) ].

(** The same without [tabHistory]. *)
Definition no_history : value :=
  VObj [ ("queryEditors", VArr [VObj [("id", VStr "x")]]);
         ("tables", VArr []);
         ("queries", VObj []) ].

(** An editor list holding [null]. *)
Definition null_editor : value :=
  VObj [ ("queryEditors", VArr [VNull]);
         ("tables", VArr []);
         ("queries", VObj []);
         ("tabHistory", VArr []) ].

(** An editor list that is the empty string, and a second key. *)
Definition empty_text_editors : Storage :=
  <[ "other" := Malformed ]>
    (Sample.legacy (VObj [("queryEditors", VStr "")])).

(** The payload of the active tab 5 with the tab records 5 and 6. *)
Definition boot_active : BootstrapData.t :=
  {| BootstrapData.common := Sample.common;
     BootstrapData.active_tab := Some SampleTab.active;
     BootstrapData.tab_state_ids :=
       Some [Sample.tab 5 "Query 5"; Sample.tab 6 "Query 6"];
     BootstrapData.databases := VObj [];
     BootstrapData.queries := VUndefined;
     BootstrapData.user := VObj [] |}.
End SampleShapes.

(** The editor built for a tab record (lines 73-100). *)
Definition tabEditor (rt : Runtime) (common : Common.t)
    (activeTab : option ActiveTab.t) (tab : TabStateId.t) : obj :=
  match activeTab with
  | Some a =>
      if ActiveTab.id a =? TabStateId.id tab
      then activeQueryEditor (TabStateId.id tab) a
      else placeholderQueryEditor rt common (TabStateId.id tab)
             (TabStateId.label tab)
  | None =>
      placeholderQueryEditor rt common (TabStateId.id tab)
        (TabStateId.label tab)
  end.

(** Whether a tab record is the record of the active tab. *)
Definition is_active (activeTab : option ActiveTab.t) (tab : TabStateId.t)
  : bool :=
  match activeTab with
  | Some a => ActiveTab.id a =? TabStateId.id tab
  | None => false
  end.

(** What the loop over the legacy editors writes for one entry. *)
Definition write_editor (u : value) (editors : obj) (qe : value) : obj :=
  obj_put (editor_key qe)
    (VObj (mergedQueryEditor u (obj_get_value (editor_key qe) editors) qe))
    (spread_into [] (VObj editors)).

(** The maps whose entries are objects filed under their own [id]. *)
Definition keyed_by_id (o : obj) : Prop :=
  Forall (fun kv => is_record kv.2 /\ ToString (prop kv.2 "id") = Ok kv.1) o.

Module SampleDuplicates.
(** Two legacy editors with the id ["x"]: the second renames the first. *)
Definition first : obj :=
  [("id", VStr "x"); ("name", VStr "First"); ("sql", VStr "SELECT 1")].
Definition second : obj := [("id", VStr "x"); ("name", VStr "Second")].

(** Two legacy tables with the id of the server table 7. *)
Definition table_first : value :=
  VObj [("id", VNum 7); ("queryEditorId", VStr "5"); ("name", VStr "old")].
Definition table_second : obj :=
  [("id", VNum 7); ("queryEditorId", VStr "5"); ("schema", VStr "s2")].
End SampleDuplicates.

(** No two neighbours of a history are the same id. *)
Definition no_adjacent_repeat (l : list value) : Prop :=
  forall pre a b post, l = pre ++ a :: b :: post -> strict_eq a b = false.

Module SampleNameless.
(** A legacy editor for the tab 5 that has neither a [title] nor a [name]. *)
Definition editor : obj := [("id", VNum 5); ("sql", VStr "SELECT 2")].

Definition sqlLab : value :=
  VObj [ ("queryEditors", VArr [VObj editor]);
         ("tables", VArr []);
         ("queries", VObj []);
         ("tabHistory", VArr []) ].
End SampleNameless.

Module SampleRepeated.
(** A legacy state in which two editors share the id ["x"] and two tables
    the id 7. *)
Definition sqlLab : value :=
  VObj [ ("queryEditors",
          VArr [VObj SampleDuplicates.first; VObj SampleDuplicates.second]);
         ("tables",
          VArr [SampleDuplicates.table_first;
                VObj SampleDuplicates.table_second]);
         ("queries", VObj []);
         ("tabHistory", VArr []) ].
End SampleRepeated.

Module SampleUnkeyable.
(** A legacy editor whose [id] is an object with a member [toString]. *)
Definition sqlLab : value :=
  VObj [ ("queryEditors",
          VArr [VObj [("id", VObj [("toString", VNum 1)])]]);
         ("tables", VArr []);
         ("queries", VObj []);
         ("tabHistory", VArr []) ].
End SampleUnkeyable.

(** * Properties *)

(** ** Objects: reading after writing *)

Lemma obj_get_None_keys (k : string) (o : obj) :
  obj_get k o = None <-> k ∉ keys o.
Proof.
  induction o as [|[k' v] o IH]; cbn.
  - split; [intros _; apply not_elem_of_nil|done].
  - rewrite not_elem_of_cons. destruct (String.eqb_spec k k'); [|tauto].
    split; [done|]. intros [? _]. done.
Qed.

Lemma obj_get_Some_elem (k : string) (v : value) (o : obj) :
  obj_get k o = Some v -> (k, v) ∈ o.
Proof.
  induction o as [|[k' v'] o IH]; cbn; [done|].
  destruct (String.eqb_spec k k') as [->|Hne].
  - intros [= ->]. apply list_elem_of_here.
  - intros H. apply list_elem_of_further. auto.
Qed.

Lemma obj_has_true (k : string) (o : obj) :
  obj_has k o = true <-> k ∈ keys o.
Proof.
  unfold obj_has. destruct (obj_get k o) eqn:E.
  - split; [|done]. intros _. apply obj_get_Some_elem in E.
    apply list_elem_of_fmap. by exists (k, v).
  - apply obj_get_None_keys in E. split; [done|]. intros H. by destruct E.
Qed.

Lemma obj_has_false (k : string) (o : obj) :
  obj_has k o = false <-> obj_get k o = None.
Proof. unfold obj_has. destruct (obj_get k o); split; done. Qed.

Lemma obj_get_app (k : string) (a b : obj) :
  obj_get k (a ++ b)
  = match obj_get k a with Some v => Some v | None => obj_get k b end.
Proof.
  induction a as [|[k' v] a IH]; cbn; [done|].
  by destruct (String.eqb k k').
Qed.

Lemma obj_get_replace (k k' : string) (v : value) (o : obj) :
  obj_get k' (obj_replace k v o)
  = if String.eqb k' k
    then match obj_get k o with Some _ => Some v | None => None end
    else obj_get k' o.
Proof.
  induction o as [|[k0 v0] o IH]; cbn.
  - by destruct (String.eqb k' k).
  - destruct (String.eqb_spec k k0) as [->|Hk]; cbn.
    + destruct (String.eqb_spec k' k0); done.
    + rewrite IH. destruct (String.eqb_spec k' k) as [->|Hk'].
      * destruct (String.eqb_spec k k0); done.
      * done.
Qed.

Lemma obj_get_insert_index (i : N) (k k' : string) (v : value) (o : obj) :
  obj_get k o = None ->
  obj_get k' (obj_insert_index i k v o)
  = if String.eqb k' k then Some v else obj_get k' o.
Proof.
  induction o as [|[k0 v0] o IH]; cbn; intros Hk.
  - by destruct (String.eqb k' k).
  - destruct (String.eqb_spec k k0) as [->|Hne]; [done|].
    destruct (array_index k0) as [j|]; [destruct (j <? i)%N|]; cbn;
      try rewrite (IH Hk);
      destruct (String.eqb_spec k' k) as [->|Hk'];
      destruct (String.eqb_spec k k0); try done;
      by destruct (String.eqb_spec k' k0).
Qed.

Lemma obj_get_put (k k' : string) (v : value) (o : obj) :
  obj_get k' (obj_put k v o)
  = if String.eqb k' k then Some v else obj_get k' o.
Proof.
  unfold obj_put. destruct (obj_has k o) eqn:Hhas.
  - rewrite obj_get_replace. unfold obj_has in Hhas.
    by destruct (obj_get k o).
  - apply obj_has_false in Hhas. destruct (array_index k).
    + by apply obj_get_insert_index.
    + rewrite obj_get_app. cbn. destruct (String.eqb_spec k' k) as [->|Hne].
      * by rewrite Hhas.
      * by destruct (obj_get k' o).
Qed.

Lemma obj_get_put_eq (k : string) (v : value) (o : obj) :
  obj_get k (obj_put k v o) = Some v.
Proof. by rewrite obj_get_put, String.eqb_refl. Qed.

Lemma obj_get_put_ne (k k' : string) (v : value) (o : obj) :
  k' <> k -> obj_get k' (obj_put k v o) = obj_get k' o.
Proof.
  intros Hne. rewrite obj_get_put. by destruct (String.eqb_spec k' k).
Qed.

(** The spread reads its source from left to right, so on a source with
    pairwise distinct names it overlays exactly the source's properties. *)
Lemma obj_get_fold_put (k : string) (src target : obj) :
  NoDup (keys src) ->
  obj_get k (fold_left (fun acc kv => obj_put kv.1 kv.2 acc) src target)
  = match obj_get k src with Some v => Some v | None => obj_get k target end.
Proof.
  revert target. induction src as [|[k0 v0] src IH]; intros target Hnd;
    [done|].
  cbn in Hnd. apply NoDup_cons in Hnd as [Hnotin Hnd].
  cbn [fold_left fst snd obj_get]. rewrite (IH _ Hnd), obj_get_put.
  destruct (String.eqb_spec k k0) as [->|Hne]; [|done].
  apply obj_get_None_keys in Hnotin. by rewrite Hnotin.
Qed.

Lemma obj_get_spread_obj (k : string) (target src : obj) :
  NoDup (keys src) ->
  obj_get k (spread_into target (VObj src))
  = match obj_get k src with Some v => Some v | None => obj_get k target end.
Proof. apply obj_get_fold_put. Qed.

Lemma obj_get_copy (k : string) (o : obj) :
  NoDup (keys o) -> obj_get k (spread_into [] (VObj o)) = obj_get k o.
Proof.
  intros Hnd. rewrite obj_get_spread_obj by done. by destruct (obj_get k o).
Qed.

(** ** Objects: property names stay pairwise distinct *)

Lemma keys_replace (k : string) (v : value) (o : obj) :
  keys (obj_replace k v o) = keys o.
Proof.
  unfold keys. induction o as [|[k0 v0] o IH]; cbn; [done|].
  destruct (String.eqb_spec k k0) as [->|Hne]; cbn; [done|by rewrite IH].
Qed.

Lemma keys_insert_index (i : N) (k : string) (v : value) (o : obj) :
  keys (obj_insert_index i k v o) ≡ₚ k :: keys o.
Proof.
  unfold keys. induction o as [|[k0 v0] o IH]; cbn; [done|].
  destruct (array_index k0) as [j|]; [destruct (j <? i)%N|]; cbn; try done.
  rewrite IH. apply Permutation_swap.
Qed.

Lemma NoDup_keys_put (k : string) (v : value) (o : obj) :
  NoDup (keys o) -> NoDup (keys (obj_put k v o)).
Proof.
  intros Hnd. unfold obj_put. destruct (obj_has k o) eqn:Hhas.
  - by rewrite keys_replace.
  - assert (k ∉ keys o) as Hnotin.
    { apply obj_get_None_keys. by apply obj_has_false. }
    destruct (array_index k).
    + rewrite keys_insert_index. by apply NoDup_cons.
    + unfold keys. rewrite map_app. cbn.
      apply NoDup_app. split; [done|]. split; [|apply NoDup_singleton].
      intros x Hx ->%list_elem_of_singleton. done.
Qed.

Lemma NoDup_keys_fold_put (src target : obj) :
  NoDup (keys target) ->
  NoDup (keys (fold_left (fun acc kv => obj_put kv.1 kv.2 acc) src target)).
Proof.
  revert target. induction src as [|[k0 v0] src IH]; intros target Hnd;
    [done|].
  cbn [fold_left]. apply IH. by apply NoDup_keys_put.
Qed.

Lemma NoDup_keys_spread (target : obj) (v : value) :
  NoDup (keys target) -> NoDup (keys (spread_into target v)).
Proof. apply NoDup_keys_fold_put. Qed.

(** Pairwise distinct names in a concrete object. *)
Ltac distinct_names := apply (bool_decide_unpack _); vm_compute; exact I.

(** ** Positions in a list *)

Lemma split_earlier {A : Type} (pre post pre' post' : list A) (a b : A) :
  pre ++ a :: post = pre' ++ b :: post' ->
  (length pre < length pre')%nat ->
  a ∈ pre'.
Proof.
  intros Heq Hlt. apply list_elem_of_lookup. exists (length pre).
  assert ((pre' ++ b :: post') !! length pre = Some a) as Hl.
  { rewrite <- Heq. by rewrite list_lookup_middle. }
  by rewrite lookup_app_l in Hl.
Qed.

Lemma split_same_length {A : Type} (pre post pre' post' : list A) (a b : A) :
  pre ++ a :: post = pre' ++ b :: post' ->
  length pre = length pre' ->
  a = b.
Proof.
  intros Heq Hlen.
  assert ((pre' ++ b :: post') !! length pre = Some a) as Hl.
  { rewrite <- Heq. by rewrite list_lookup_middle. }
  rewrite Hlen, list_lookup_middle in Hl by done. by injection Hl.
Qed.

(** ** Printing numbers *)

Lemma Z_to_int_nonnil (n : Z) :
  Z.to_int n <> Decimal.Pos Decimal.Nil /\ Z.to_int n <> Decimal.Neg Decimal.Nil.
Proof.
  destruct n as [|p|p]; cbn; split; try done;
    intros [= H]; by apply DecimalPos.Unsigned.to_uint_nonnil in H.
Qed.

Lemma string_of_Z_inj (a b : Z) : string_of_Z a = string_of_Z b -> a = b.
Proof.
  unfold string_of_Z. intros Heq.
  destruct (Z_to_int_nonnil a) as [Ha1 Ha2].
  destruct (Z_to_int_nonnil b) as [Hb1 Hb2].
  pose proof (NilZero.isi _ Ha1 Ha2) as Ia.
  pose proof (NilZero.isi _ Hb1 Hb2) as Ib.
  rewrite Heq in Ia. rewrite Ia in Ib. injection Ib as Hab.
  rewrite <- (DecimalZ.of_to a), <- (DecimalZ.of_to b). by rewrite Hab.
Qed.

(** The decimal form of an integer in 0 .. 2^32 - 2 is an array index. *)
Lemma array_index_string_of_Z (n : Z) :
  0 <= n < 4294967295 ->
  array_index (string_of_Z n) = Some (Z.to_N n).
Proof.
  intros [Hlo Hhi]. unfold array_index, string_of_Z.
  assert (Z.to_int n = Decimal.Pos (N.to_uint (Z.to_N n))) as ->.
  { by destruct n. }
  cbn [NilZero.string_of_int].
  assert (N.to_uint (Z.to_N n) <> Decimal.Nil) as Hnil.
  { destruct (Z.to_N n); [done|apply DecimalPos.Unsigned.to_uint_nonnil]. }
  rewrite (NilZero.usu _ Hnil), DecimalN.Unsigned.of_to, String.eqb_refl.
  assert ((Z.to_N n <? 4294967295)%N = true) as ->; [|done].
  apply N.ltb_lt. lia.
Qed.

#[local] Instance string_of_Z_Inj : Inj eq eq string_of_Z.
Proof. intros a b. apply string_of_Z_inj. Qed.

(** ** Exceptions and loops *)

Lemma bind_Ok {A B : Type} (r : result A) (k : A -> result B) (b : B) :
  bind r k = Ok b -> exists a, r = Ok a /\ k a = Ok b.
Proof. destruct r as [a|e]; [|done]. intros H. by exists a. Qed.

(** A loop that returns has applied its body, as a function, to every
    element. *)
Lemma foldM_Ok_fold {A B : Type} (f : A -> B -> result A) (g : A -> B -> A)
    (l : list B) (a b : A) :
  (forall a' x b', f a' x = Ok b' -> b' = g a' x) ->
  foldM f l a = Ok b -> b = fold_left g l a.
Proof.
  intros Hf. revert a. induction l as [|x l IH]; intros a H.
  - by injection H as <-.
  - cbn [foldM] in H. apply bind_Ok in H as (a1 & H1 & H).
    cbn [fold_left]. rewrite <- (Hf _ _ _ H1). by apply IH.
Qed.

Lemma foldM_app {A B : Type} (f : A -> B -> result A) (l1 l2 : list B) (a : A) :
  foldM f (l1 ++ l2) a = bind (foldM f l1 a) (foldM f l2).
Proof.
  revert a. induction l1 as [|x l1 IH]; intros a; [done|].
  cbn [app foldM]. destruct (f a x) as [a1|e]; cbn [bind]; [apply IH|done].
Qed.

(** ** Property names *)

(** Induction on a value, through the elements of arrays. *)
Lemma value_array_ind (P : value -> Prop) :
  P VUndefined -> P VNull -> (forall b, P (VBool b)) -> (forall n, P (VNum n)) ->
  (forall s, P (VStr s)) -> (forall l, Forall P l -> P (VArr l)) ->
  (forall ps, P (VObj ps)) ->
  forall v, P v.
Proof.
  intros Hu Hn Hb Hz Hs Ha Ho. fix IH 1.
  intros [| |b|n|s|l|ps];
    [exact Hu|exact Hn|apply Hb|apply Hz|apply Hs| |apply Ho].
  apply Ha. revert l. fix IHl 1.
  intros [|x l]; constructor; [apply IH|apply IHl].
Qed.

(** [Array.prototype.join], one element at a time. *)
Lemma ToString_cons (x : value) (rest : list value) :
  ToString (VArr (x :: rest))
  = bind (match x with
          | VUndefined | VNull => Ok ""
          | _ => ToString x
          end)
      (fun sx =>
         match rest with
         | [] => Ok sx
         | _ :: _ =>
             bind (ToString (VArr rest))
               (fun srest => Ok (sx +:+ "," +:+ srest))
         end).
Proof. reflexivity. Qed.

(** The only exception of the conversion is the [TypeError]. *)
Lemma ToString_TypeError (v : value) (e : error) :
  ToString v = Throw e -> e = TypeError.
Proof.
  revert e. induction v as [| |b|n|s|l Hl|ps] using value_array_ind;
    intros e; try done.
  - by destruct b.
  - induction Hl as [|x rest Hx Hrest IH]; [done|].
    rewrite ToString_cons. intros Heq.
    destruct (match x with
              | VUndefined | VNull => Ok ""
              | _ => ToString x
              end) as [sx|e1] eqn:E1; cbn [bind] in Heq.
    + destruct rest as [|y rest]; [done|].
      destruct (ToString (VArr (y :: rest))) as [srest|e2] eqn:E2;
        cbn [bind] in Heq; [done|].
      injection Heq as <-. by apply IH.
    + injection Heq as <-. destruct x; try done; by apply Hx.
  - cbn. destruct (obj_has "toString" ps); [by intros [= <-]|done].
Qed.

Lemma key_name_Ok (v : value) (k : string) :
  ToString v = Ok k -> key_name v = k.
Proof. unfold key_name. by intros ->. Qed.

(** ** Loops that write one keyed entry per element *)

Lemma keyed_write_put (k : string) (v : value) (o : obj) :
  NoDup (keys o) -> keyed_write k v o (obj_put k v o).
Proof.
  intros Hnd. split; [by apply NoDup_keys_put|].
  intros k'. apply obj_get_put.
Qed.

Lemma keyed_write_copy_put (k : string) (v : value) (o : obj) :
  NoDup (keys o) -> keyed_write k v o (obj_put k v (spread_into [] (VObj o))).
Proof.
  intros Hnd. split.
  - apply NoDup_keys_put, NoDup_keys_spread. constructor.
  - intros k'. by rewrite obj_get_put, obj_get_copy.
Qed.

Section keyed_fold.
Context {B : Type}.
Variable key : B -> string.
Variable val : option value -> B -> value.
Variable step : obj -> B -> obj.
Hypothesis step_writes : forall (o : obj) (x : B),
  NoDup (keys o) ->
  keyed_write (key x) (val (obj_get (key x) o) x) o (step o x).

Lemma keyed_fold_NoDup (l : list B) (o : obj) :
  NoDup (keys o) -> NoDup (keys (fold_left step l o)).
Proof.
  revert o. induction l as [|x l IH]; intros o Hnd; [done|].
  cbn. apply IH. by apply step_writes.
Qed.

(** An entry no element writes keeps its value. *)
Lemma keyed_fold_other (l : list B) (o : obj) (k : string) :
  NoDup (keys o) -> k ∉ map key l ->
  obj_get k (fold_left step l o) = obj_get k o.
Proof.
  revert o. induction l as [|x l IH]; intros o Hnd Hk; [done|].
  cbn in Hk. apply not_elem_of_cons in Hk as [Hne Hk].
  cbn. rewrite IH by (by apply step_writes || done).
  destruct (step_writes o x Hnd) as [_ ->].
  by destruct (String.eqb_spec k (key x)).
Qed.

(** The entries after the loop: those before it and those written. *)
Lemma keyed_fold_keys (l : list B) (o : obj) (k : string) :
  NoDup (keys o) ->
  k ∈ keys (fold_left step l o) <-> k ∈ keys o \/ k ∈ map key l.
Proof.
  revert o. induction l as [|x l IH]; intros o Hnd; cbn [fold_left map].
  - rewrite elem_of_nil. tauto.
  - destruct (step_writes o x Hnd) as [Hnd' Hget].
    rewrite (IH _ Hnd'), elem_of_cons.
    rewrite <- !obj_has_true. unfold obj_has. rewrite Hget.
    destruct (String.eqb_spec k (key x)) as [->|Hne].
    + tauto.
    + destruct (obj_get k o); tauto.
Qed.

(** The last element that writes an entry decides it. *)
Lemma keyed_fold_last (pre post : list B) (x : B) (o : obj) :
  NoDup (keys o) -> key x ∉ map key post ->
  obj_get (key x) (fold_left step (pre ++ x :: post) o)
  = Some (val (obj_get (key x) (fold_left step pre o)) x).
Proof.
  intros Hnd Hpost. rewrite fold_left_app. cbn.
  pose proof (keyed_fold_NoDup pre o Hnd) as Hnd'.
  rewrite keyed_fold_other by (by apply step_writes || done).
  destruct (step_writes _ x Hnd') as [_ ->].
  by rewrite String.eqb_refl.
Qed.

(** With pairwise distinct keys every element decides its own entry, from
    the entry as it was before the loop. *)
Lemma keyed_fold_lookup (l : list B) (x : B) (o : obj) :
  NoDup (keys o) -> NoDup (map key l) -> x ∈ l ->
  obj_get (key x) (fold_left step l o) = Some (val (obj_get (key x) o) x).
Proof.
  intros Hnd Hl Hx. apply list_elem_of_split in Hx as (pre & post & ->).
  rewrite map_app in Hl. cbn in Hl.
  apply NoDup_app in Hl as (_ & Hdisj & Hpost).
  apply NoDup_cons in Hpost as [Hpost _].
  rewrite keyed_fold_last by done.
  rewrite keyed_fold_other; [done..|].
  intros Hin. apply (Hdisj _ Hin). apply list_elem_of_here.
Qed.
End keyed_fold.


(** The last element of a loop that writes a given entry. *)
Lemma keyed_fold_split_last {B : Type} (key : B -> string) (l : list B)
    (k : string) :
  k ∈ map key l ->
  exists pre x post, l = pre ++ x :: post /\ key x = k /\ k ∉ map key post.
Proof.
  induction l as [|y l IH]; cbn [map]; intros Hk; [by apply elem_of_nil in Hk|].
  destruct (decide (k ∈ map key l)) as [Hin|Hnotin].
  - destruct (IH Hin) as (pre & x & post & -> & Hx & Hpost).
    by exists (y :: pre), x, post.
  - apply elem_of_cons in Hk as [Hk|Hk]; [|done].
    by exists [], y, l.
Qed.

(** An entry of a map is one of its values. *)
Lemma obj_get_values (k : string) (v : value) (o : obj) :
  obj_get k o = Some v -> v ∈ map snd o.
Proof.
  intros H. apply list_elem_of_fmap. exists (k, v).
  split; [done|]. by apply obj_get_Some_elem.
Qed.

(** ** The tab-history deduplicator *)

Lemma last_or_undefined_snoc (l : list value) (x : value) :
  last_or_undefined (l ++ [x]) = x.
Proof. unfold last_or_undefined. by rewrite last_snoc. Qed.

Lemma strict_eq_VStr (a b : string) :
  strict_eq (VStr a) (VStr b) = String.eqb a b.
Proof. reflexivity. Qed.

Lemma dedupe_fold_strings (ids : list string) (a : string) (acc : list value) :
  fold_left dedupe_step (map VStr ids) (acc ++ [VStr a])
  = acc ++ map VStr (collapse_runs (a :: ids)).
Proof.
  revert a acc. induction ids as [|y ids IH]; intros a acc; [done|].
  cbn [map fold_left]. unfold dedupe_step at 2.
  rewrite last_or_undefined_snoc, strict_eq_VStr.
  change (collapse_runs (a :: y :: ids))
    with (if String.eqb a y then collapse_runs (y :: ids)
          else a :: collapse_runs (y :: ids)).
  destruct (String.eqb_spec a y) as [->|Hne].
  - apply IH.
  - cbn [concat1]. rewrite IH. by rewrite <- app_assoc.
Qed.

Lemma dedupeTabHistory_strings (ids : list string) :
  dedupeTabHistory (map VStr ids) = map VStr (collapse_runs ids).
Proof.
  destruct ids as [|a ids]; [done|].
  unfold dedupeTabHistory. cbn [map fold_left].
  apply (dedupe_fold_strings ids a []).
Qed.

Lemma collapse_runs_head (y : string) (r : list string) :
  exists t, collapse_runs (y :: r) = y :: t.
Proof.
  revert y. induction r as [|z r IH]; intros y; [by exists []|].
  cbn [collapse_runs]. destruct (String.eqb_spec y z) as [->|Hne].
  - apply IH.
  - eauto.
Qed.

Lemma collapse_runs_idempotent (ids : list string) :
  collapse_runs (collapse_runs ids) = collapse_runs ids.
Proof.
  induction ids as [|x [|y r] IH]; [done..|].
  change (collapse_runs (x :: y :: r))
    with (if String.eqb x y then collapse_runs (y :: r)
          else x :: collapse_runs (y :: r)).
  destruct (String.eqb_spec x y) as [->|Hne]; [exact IH|].
  destruct (collapse_runs_head y r) as [t Ht].
  rewrite Ht in IH |- *.
  change (collapse_runs (x :: y :: t))
    with (if String.eqb x y then collapse_runs (y :: t)
          else x :: collapse_runs (y :: t)).
  destruct (String.eqb_spec x y); [done|]. by rewrite IH.
Qed.

Lemma collapse_runs_sublist (ids : list string) :
  sublist (collapse_runs ids) ids.
Proof.
  induction ids as [|x [|y r] IH]; [done..|].
  change (collapse_runs (x :: y :: r))
    with (if String.eqb x y then collapse_runs (y :: r)
          else x :: collapse_runs (y :: r)).
  destruct (String.eqb x y); [by apply sublist_cons|by apply sublist_skip].
Qed.

Lemma collapse_runs_no_repeat (ids pre post : list string) (a b : string) :
  collapse_runs ids = pre ++ a :: b :: post -> a <> b.
Proof.
  revert pre. induction ids as [|x [|y r] IH]; intros pre.
  - by destruct pre.
  - by destruct pre as [|? [|]].
  - change (collapse_runs (x :: y :: r))
      with (if String.eqb x y then collapse_runs (y :: r)
            else x :: collapse_runs (y :: r)).
    destruct (String.eqb_spec x y) as [->|Hne]; [apply IH|].
    destruct (collapse_runs_head y r) as [t Ht].
    destruct pre as [|p pre]; cbn [app].
    + rewrite Ht. by intros [= <- <- _].
    + intros [= _ H]. by apply (IH pre).
Qed.

(** C5.  [dedupeTabHistory] is an adjacency-only filter.  On every sequence
    of ids it returns the sequence with each maximal run of consecutive equal
    ids collapsed to one occurrence: a subsequence of the input, in the same
    order, in which no two neighbours are equal, so that repeats separated by
    another id are kept.  It is defined on the empty sequence, where it
    returns the empty sequence; and on [a,a,b,a] it returns [a,b,a]. *)
Theorem dedupeTabHistory_adjacency_only :
  (forall ids : list string,
     dedupeTabHistory (map VStr ids) = map VStr (collapse_runs ids)
     /\ sublist (collapse_runs ids) ids
     /\ forall pre a b post,
          collapse_runs ids = pre ++ a :: b :: post -> a <> b)
  /\ dedupeTabHistory [] = []
  /\ dedupeTabHistory [VStr "a"; VStr "a"; VStr "b"; VStr "a"]
     = [VStr "a"; VStr "b"; VStr "a"].
Proof.
  split; [|done]. intros ids.
  split; [apply dedupeTabHistory_strings|].
  split; [apply collapse_runs_sublist|].
  intros pre a b post. apply collapse_runs_no_repeat.
Qed.

(** C10.  [dedupeTabHistory] is idempotent: applying it to its own output
    gives the same sequence as applying it once. *)
Theorem dedupeTabHistory_idempotent (ids : list string) :
  dedupeTabHistory (dedupeTabHistory (map VStr ids))
  = dedupeTabHistory (map VStr ids).
Proof.
  by rewrite !dedupeTabHistory_strings, collapse_runs_idempotent.
Qed.

(** ** The maps built from the server payload *)

Lemma Forall_insert_index (P : string * value -> Prop) (i : N) (k : string)
    (v : value) (o : obj) :
  P (k, v) -> Forall P o -> Forall P (obj_insert_index i k v o).
Proof.
  intros Hkv. induction o as [|[k0 v0] o IH]; intros Ho; cbn.
  - by constructor.
  - apply Forall_cons in Ho as [H0 Ho].
    destruct (array_index k0) as [j|]; [destruct (j <? i)%N|];
      repeat constructor; auto.
Qed.

Lemma Forall_replace (P : string * value -> Prop) (k : string) (v : value)
    (o : obj) :
  P (k, v) -> Forall P o -> Forall P (obj_replace k v o).
Proof.
  intros Hkv. induction o as [|[k0 v0] o IH]; intros Ho; cbn; [done|].
  apply Forall_cons in Ho as [H0 Ho].
  destruct (String.eqb k k0); constructor; auto.
Qed.

Lemma Forall_put (P : string * value -> Prop) (k : string) (v : value)
    (o : obj) :
  P (k, v) -> Forall P o -> Forall P (obj_put k v o).
Proof.
  intros Hkv Ho. unfold obj_put. destruct (obj_has k o).
  - by apply Forall_replace.
  - destruct (array_index k).
    + by apply Forall_insert_index.
    + apply Forall_app. split; [done|]. by constructor.
Qed.

Lemma Forall_copy (P : string * value -> Prop) (o : obj) :
  Forall P o -> Forall P (spread_into [] (VObj o)).
Proof.
  unfold spread_into, own_enumerable. intros Ho.
  assert (Forall P []) as Ht by constructor.
  revert Ht. generalize (@nil (string * value)).
  induction Ho as [|[k v] src Hkv Ho IH]; intros target Ht; [done|].
  cbn [fold_left]. apply IH. by apply Forall_put.
Qed.

Lemma placeholder_is_record (rt : Runtime) (common : Common.t) (id : Z)
    (label : value) :
  is_record (VObj (placeholderQueryEditor rt common id label)).
Proof.
  eexists. split; [reflexivity|]. unfold placeholderQueryEditor.
  do 3 apply NoDup_keys_put. apply NoDup_keys_spread. constructor.
Qed.

Lemma active_is_record (id : Z) (a : ActiveTab.t) :
  is_record (VObj (activeQueryEditor id a)).
Proof. eexists. split; [reflexivity|]. cbn. distinct_names. Qed.

(** The editors of the server are objects, under pairwise distinct names. *)
Lemma serverQueryEditors_records (rt : Runtime) (boot : BootstrapData.t) :
  NoDup (keys (serverQueryEditors rt boot))
  /\ Forall (fun kv => is_record kv.2) (serverQueryEditors rt boot).
Proof.
  unfold serverQueryEditors.
  generalize (default [] (BootstrapData.tab_state_ids boot)). intros tabs.
  assert (NoDup (keys [])
          /\ Forall (fun kv : string * value => is_record kv.2) []) as H.
  { split; constructor. }
  revert H. generalize (@nil (string * value)).
  induction tabs as [|tab tabs IH]; intros o [Hnd Hrec]; [done|].
  cbn [fold_left]. apply IH. unfold addServerEditor. split.
  - apply NoDup_keys_put, NoDup_keys_spread. constructor.
  - apply Forall_put; [|by apply Forall_copy]. cbn [snd].
    destruct (BootstrapData.active_tab boot) as [a|];
      [destruct (ActiveTab.id a =? TabStateId.id tab)|];
      auto using placeholder_is_record, active_is_record.
Qed.

Lemma serverTable_is_record (tableSchema : TableSchema.t) (description : obj) :
  is_record (VObj (serverTable tableSchema description)).
Proof. eexists. split; [reflexivity|]. cbn. distinct_names. Qed.

(** The tables of the server are objects, under pairwise distinct names. *)
Lemma serverTables_records (activeTab : option ActiveTab.t) :
  NoDup (keys (serverTables activeTab))
  /\ Forall (fun kv => is_record kv.2) (serverTables activeTab).
Proof.
  destruct activeTab as [a|]; [|split; constructor]. cbn [serverTables].
  generalize (described (ActiveTab.table_schemas a)). intros entries.
  assert (NoDup (keys [])
          /\ Forall (fun kv : string * value => is_record kv.2) []) as H.
  { split; constructor. }
  revert H. generalize (@nil (string * value)).
  induction entries as [|entry entries IH]; intros o [Hnd Hrec]; [done|].
  cbn [fold_left]. apply IH. unfold addServerTable. split.
  - apply NoDup_keys_put, NoDup_keys_spread. constructor.
  - apply Forall_put; [|by apply Forall_copy]. apply serverTable_is_record.
Qed.

(** ** Reading the legacy slot *)

(** The branches of lines 140-187, by what the slot holds. *)
Lemma reconcile_cases (rt : Runtime) (boot : BootstrapData.t) (ls : Storage) :
  reconcile rt boot ls
  = match ls !! "redux" with
    | None | Some EmptyText => Ok (serverState rt boot, ls)
    | Some Malformed => Throw SyntaxError
    | Some (JsonText v) =>
        if truthy (opt_chain v "sqlLab") then
          let sqlLab := prop v "sqlLab" in
          let* editorCount := get (prop sqlLab "queryEditors") "length" in
          if strict_eq editorCount (VNum 0)
          then Ok (serverState rt boot, delete "redux" ls)
          else let* s' := overlayLegacy sqlLab (serverState rt boot) in
               Ok (s', ls)
        else Ok (serverState rt boot, ls)
    end.
Proof.
  unfold reconcile, getItem, removeItem.
  destruct (ls !! "redux") as [[| |v]|]; try reflexivity.
Qed.

Lemma getInitialState_reconcile (rt : Runtime) (boot : BootstrapData.t)
    (ls ls' : Storage) (s : Merged) :
  reconcile rt boot ls = Ok (s, ls') ->
  getInitialState rt boot ls = Ok (assemble rt boot s, ls').
Proof. intros H. unfold getInitialState. by rewrite H. Qed.

Lemma getInitialState_Throw (rt : Runtime) (boot : BootstrapData.t)
    (ls : Storage) (e : error) :
  reconcile rt boot ls = Throw e -> getInitialState rt boot ls = Throw e.
Proof. intros H. unfold getInitialState. by rewrite H. Qed.

(** Without a usable legacy slot the result is the server-only state. *)
Lemma getInitialState_no_legacy (rt : Runtime) (boot : BootstrapData.t)
    (ls : Storage) :
  text_truthy (ls !! "redux") = false ->
  getInitialState rt boot ls = Ok (serverOnly rt boot, ls).
Proof.
  intros Hslot. apply getInitialState_reconcile. rewrite reconcile_cases.
  by destruct (ls !! "redux") as [[| |v]|].
Qed.

Lemma getInitialState_no_sqlLab (rt : Runtime) (boot : BootstrapData.t)
    (ls : Storage) (v : value) :
  ls !! "redux" = Some (JsonText v) ->
  truthy (opt_chain v "sqlLab") = false ->
  getInitialState rt boot ls = Ok (serverOnly rt boot, ls).
Proof.
  intros Hslot Hno. apply getInitialState_reconcile.
  by rewrite reconcile_cases, Hslot, Hno.
Qed.

Lemma getInitialState_malformed (rt : Runtime) (boot : BootstrapData.t)
    (ls : Storage) :
  ls !! "redux" = Some Malformed ->
  getInitialState rt boot ls = Throw SyntaxError.
Proof.
  intros Hslot. apply getInitialState_Throw.
  by rewrite reconcile_cases, Hslot.
Qed.

Lemma getInitialState_no_editor_list (rt : Runtime) (boot : BootstrapData.t)
    (ls : Storage) (v : value) :
  ls !! "redux" = Some (JsonText v) ->
  truthy (opt_chain v "sqlLab") = true ->
  nullish (prop (prop v "sqlLab") "queryEditors") = true ->
  getInitialState rt boot ls = Throw TypeError.
Proof.
  intros Hslot Hsql Hnull. apply getInitialState_Throw.
  rewrite reconcile_cases, Hslot, Hsql. cbn zeta. unfold get.
  by rewrite Hnull.
Qed.

Lemma getInitialState_clean_slate (rt : Runtime) (boot : BootstrapData.t)
    (ls : Storage) (v : value) :
  ls !! "redux" = Some (JsonText v) ->
  truthy (opt_chain v "sqlLab") = true ->
  prop (prop v "sqlLab") "queryEditors" = VArr [] ->
  getInitialState rt boot ls = Ok (serverOnly rt boot, delete "redux" ls).
Proof.
  intros Hslot Hsql Hnone. apply getInitialState_reconcile.
  rewrite reconcile_cases, Hslot, Hsql. cbn zeta. by rewrite Hnone.
Qed.

(** ** What a successful run went through *)

Lemma overlayLegacy_inv (sqlLab : value) (s s' : Merged) :
  overlayLegacy sqlLab s = Ok s' ->
  let unsaved := js_or (prop sqlLab "unsavedQueryEditor")
                   (m_unsavedQueryEditor s) in
  exists legacyEditors legacyTables legacyQueries legacyHistory seen,
    prop sqlLab "queryEditors" = VArr legacyEditors
    /\ prop sqlLab "tables" = VArr legacyTables
    /\ Object_values (prop sqlLab "queries") = Ok legacyQueries
    /\ iterate (prop sqlLab "tabHistory") = Ok legacyHistory
    /\ foldM (mergeQueryEditor unsaved) legacyEditors (m_queryEditors s)
       = Ok (m_queryEditors s')
    /\ foldM (mergeTable (m_tables s)) legacyTables ([], m_tables s)
       = Ok (seen, m_tables s')
    /\ foldM mergeQuery legacyQueries (m_queries s) = Ok (m_queries s')
    /\ m_tabHistory s' = m_tabHistory s ++ legacyHistory
    /\ m_unsavedQueryEditor s' = unsaved.
Proof.
  unfold overlayLegacy. intros H.
  apply bind_Ok in H as (les & Hles & H).
  apply bind_Ok in H as (eds & Heds & H).
  apply bind_Ok in H as (lts & Hlts & H).
  apply bind_Ok in H as ([seen tbls] & Htbls & H).
  apply bind_Ok in H as (lqs & Hlqs & H).
  apply bind_Ok in H as (qs & Hqs & H).
  apply bind_Ok in H as (hist & Hhist & H).
  injection H as <-. cbn.
  exists les, lts, lqs, hist, seen.
  destruct (prop sqlLab "queryEditors"); try done.
  destruct (prop sqlLab "tables"); try done.
  cbn in Hles, Hlts. injection Hles as ->. injection Hlts as ->.
  done.
Qed.

Lemma reconcile_inv (rt : Runtime) (boot : BootstrapData.t)
    (ls ls' : Storage) (s : Merged) :
  reconcile rt boot ls = Ok (s, ls') ->
  match legacy_sqlLab ls with
  | Some sqlLab =>
      overlayLegacy sqlLab (serverState rt boot) = Ok s /\ ls' = ls
  | None =>
      s = serverState rt boot /\ (ls' = ls \/ ls' = delete "redux" ls)
  end.
Proof.
  rewrite reconcile_cases. unfold legacy_sqlLab, getItem.
  destruct (ls !! "redux") as [[| |v]|];
    [intros [= <- <-]; by auto | done | | intros [= <- <-]; by auto].
  destruct (truthy (opt_chain v "sqlLab")) eqn:Hsql.
  2: { intros [= <- <-]. cbn [andb]. by auto. }
  assert (opt_chain v "sqlLab" = prop v "sqlLab") as ->.
  { unfold opt_chain in *. by destruct (nullish v). }
  cbn zeta. unfold get.
  destruct (nullish (prop (prop v "sqlLab") "queryEditors")); [done|].
  cbn [bind andb].
  destruct (strict_eq _ (VNum 0)); cbn [negb].
  - intros [= <- <-]. by auto.
  - intros H. apply bind_Ok in H as (s' & Hs' & [= <- <-]). done.
Qed.

Lemma getInitialState_inv (rt : Runtime) (boot : BootstrapData.t)
    (ls ls' : Storage) (st : State.t) :
  getInitialState rt boot ls = Ok (st, ls') ->
  exists s, reconcile rt boot ls = Ok (s, ls') /\ st = assemble rt boot s.
Proof.
  unfold getInitialState. intros H.
  apply bind_Ok in H as ([s l] & Hs & [= <- <-]). by exists s.
Qed.

(** A call that returns has run the three loops of the overlay on the legacy
    lists (which are empty when no legacy state is overlaid), starting from
    the maps built from the server payload. *)
Lemma getInitialState_legacy (rt : Runtime) (boot : BootstrapData.t)
    (ls ls' : Storage) (st : State.t) :
  getInitialState rt boot ls = Ok (st, ls') ->
  exists s seen,
    reconcile rt boot ls = Ok (s, ls')
    /\ st = assemble rt boot s
    /\ foldM (mergeQueryEditor (unsaved_patch ls))
         (legacy_list "queryEditors" ls) (serverQueryEditors rt boot)
       = Ok (m_queryEditors s)
    /\ foldM (mergeTable (serverTables (BootstrapData.active_tab boot)))
         (legacy_list "tables" ls)
         ([], serverTables (BootstrapData.active_tab boot))
       = Ok (seen, m_tables s)
    /\ foldM mergeQuery (legacy_queries ls)
         (spread_into [] (BootstrapData.queries boot))
       = Ok (m_queries s).
Proof.
  intros H. apply getInitialState_inv in H as (s & Hs & ->).
  pose proof Hs as Hs'. apply reconcile_inv in Hs'.
  unfold unsaved_patch, legacy_list, legacy_queries.
  destruct (legacy_sqlLab ls) as [sqlLab|].
  - destruct Hs' as [Ho _]. apply overlayLegacy_inv in Ho. cbn zeta in Ho.
    destruct Ho as (les & lts & lqs & hist & seen & -> & -> & Hlqs & _
                    & Hfe & Hft & Hfq & _ & _).
    exists s, seen. unfold Object_values in Hlqs.
    destruct (nullish (prop sqlLab "queries")); [done|].
    injection Hlqs as <-. done.
  - destruct Hs' as [-> _]. by exists (serverState rt boot), [].
Qed.

(** ** The editor overlay *)

(** When the body of the loop returns, it has written the merged editor
    under the entry's id. *)
Lemma mergeQueryEditor_write_editor (u : value) (o o' : obj) (qe : value) :
  mergeQueryEditor u o qe = Ok o' -> o' = write_editor u o qe.
Proof.
  unfold mergeQueryEditor, get, write_editor, editor_key, key_name.
  destruct (nullish qe); [done|]. cbn [bind].
  destruct (ToString (prop qe "id")) as [k|e]; [|done].
  cbn [bind]. by intros [= <-].
Qed.

Lemma overlay_editors_fold (u : value) (legacy : list value)
    (editors final : obj) :
  foldM (mergeQueryEditor u) legacy editors = Ok final ->
  final = fold_left (write_editor u) legacy editors.
Proof.
  apply foldM_Ok_fold. intros a' x b'. apply mergeQueryEditor_write_editor.
Qed.

Lemma write_editor_writes (u : value) (o : obj) (qe : value) :
  NoDup (keys o) ->
  keyed_write (editor_key qe)
    (VObj (mergedQueryEditor u (default VUndefined (obj_get (editor_key qe) o))
             qe))
    o (write_editor u o qe).
Proof. intros Ho. by apply keyed_write_copy_put. Qed.

(** The fields of the editor object the code writes. *)
Lemma mergedQueryEditor_field (us ps : obj) (existing : option obj) (f : string) :
  NoDup (keys us) -> NoDup (keys ps) ->
  (forall es, existing = Some es -> NoDup (keys es)) ->
  obj_get f
    (mergedQueryEditor (VObj us)
       (match existing with Some es => VObj es | None => VUndefined end)
       (VObj ps))
  = if String.eqb f "loaded" || String.eqb f "inLocalStorage"
    then Some (VBool true)
    else
      overlay
        ((if patch_applies (VObj us) (VObj ps) then Some us else None)
           ≫= obj_get f)
        (if String.eqb f "name"
         then Some (js_or (prop (VObj ps) "title") (prop (VObj ps) "name"))
         else overlay (obj_get f ps) (existing ≫= obj_get f)).
Proof.
  intros Hus Hps Hes. unfold mergedQueryEditor.
  rewrite !obj_get_put.
  destruct (String.eqb f "loaded"); [done|].
  destruct (String.eqb f "inLocalStorage"); [done|]. cbn [orb].
  fold (patch_applies (VObj us) (VObj ps)).
  assert (forall target,
    obj_get f (spread_into target
      (js_and (VBool (patch_applies (VObj us) (VObj ps))) (VObj us)))
    = overlay ((if patch_applies (VObj us) (VObj ps) then Some us else None)
                 ≫= obj_get f) (obj_get f target)) as ->.
  { intros target. destruct (patch_applies (VObj us) (VObj ps));
      unfold js_and; cbn [truthy]; [|done].
    by rewrite obj_get_spread_obj. }
  f_equal. rewrite obj_get_put.
  destruct (String.eqb f "name"); [done|].
  rewrite obj_get_spread_obj by done. unfold overlay at 1.
  destruct (obj_get f ps); [done|].
  destruct existing as [es|]; [|done].
  rewrite obj_get_spread_obj by eauto. cbn. by destruct (obj_get f es).
Qed.

(** The editor object the code writes is the overlay, field by field. *)
Lemma mergedQueryEditor_overlay (us ps : obj) (existing : option obj)
    (f : string) :
  NoDup (keys us) -> NoDup (keys ps) ->
  (forall es, existing = Some es -> NoDup (keys es)) ->
  obj_get f
    (mergedQueryEditor (VObj us)
       (match existing with Some es => VObj es | None => VUndefined end)
       (VObj ps))
  = editor_overlay_field existing ps
      (if patch_applies (VObj us) (VObj ps) then Some us else None) f.
Proof. intros Hus Hps Hes. by rewrite mergedQueryEditor_field. Qed.

(** For an entry that carries its name, this is the overlay in the words of
    the specification. *)
Lemma editor_overlay_field_named (existing : option obj) (ps : obj)
    (patch : option obj) (f : string) :
  named ps = true ->
  editor_overlay_field existing ps patch f
  = editor_field_spec existing ps patch f.
Proof.
  intros Hnamed. unfold editor_overlay_field, editor_field_spec.
  destruct (String.eqb f "loaded" || String.eqb f "inLocalStorage"); [done|].
  f_equal. destruct (String.eqb_spec f "name") as [->|Hne]; [|done].
  unfold named, obj_has in Hnamed.
  unfold legacy_name, legacy_title, js_or, prop, overlay.
  destruct (obj_get "title" ps) as [title|]; cbn [default from_option].
  - unfold id. by rewrite Hnamed.
  - by destruct (obj_get "name" ps).
Qed.

Lemma obj_get_value_record (k : string) (o : obj) :
  Forall (fun kv => is_record kv.2) o ->
  obj_get_value k o
  = match existing_record k o with Some es => VObj es | None => VUndefined end
  /\ forall es, existing_record k o = Some es -> NoDup (keys es).
Proof.
  intros Hall. unfold obj_get_value, existing_record.
  destruct (obj_get k o) as [v|] eqn:E; [|done].
  apply obj_get_Some_elem in E.
  rewrite Forall_forall in Hall. destruct (Hall _ E) as (es & Hv & Hnd).
  cbn in Hv. subst v. split; [done|]. by intros ? [= <-].
Qed.

(** The loop keeps the editors objects. *)
Lemma overlay_editors_records (u : value) (legacy : list value) (editors : obj) :
  NoDup (keys editors) ->
  Forall (fun kv => is_record kv.2) editors ->
  Forall (fun kv => is_record kv.2) (fold_left (write_editor u) legacy editors).
Proof.
  revert editors. induction legacy as [|qe legacy IH]; intros editors Hnd Hrec;
    [done|].
  cbn [fold_left]. apply IH.
  - by apply (write_editor_writes u).
  - unfold write_editor. apply Forall_put; [|by apply Forall_copy].
    eexists. split; [reflexivity|]. unfold mergedQueryEditor.
    do 2 apply NoDup_keys_put. apply NoDup_keys_spread, NoDup_keys_put.
    do 2 apply NoDup_keys_spread. constructor.
Qed.

(** The editor the loop leaves under the id of an entry that no later entry
    shares: the overlay onto the entry as the earlier legacy entries left
    it. *)
Lemma overlay_editors_last (us editors : obj) (pre post : list value)
    (ps final : obj) :
  NoDup (keys us) ->
  NoDup (keys editors) ->
  Forall (fun kv => is_record kv.2) editors ->
  NoDup (keys ps) ->
  editor_key (VObj ps) ∉ map editor_key post ->
  foldM (mergeQueryEditor (VObj us)) (pre ++ VObj ps :: post) editors
  = Ok final ->
  exists earlier merged,
    foldM (mergeQueryEditor (VObj us)) pre editors = Ok earlier
    /\ obj_get (editor_key (VObj ps)) final = Some (VObj merged)
    /\ (forall f,
          obj_get f merged
          = editor_overlay_field
              (existing_record (editor_key (VObj ps)) earlier) ps
              (if patch_applies (VObj us) (VObj ps) then Some us else None) f)
    /\ (forall k, k ∉ map editor_key pre ->
          obj_get k earlier = obj_get k editors).
Proof.
  intros Hus Heds Hrec Hps Hpost Hfold.
  pose proof Hfold as Hall. apply overlay_editors_fold in Hall.
  rewrite foldM_app in Hfold. apply bind_Ok in Hfold as (earlier & Hpre & _).
  pose proof Hpre as Hearlier. apply overlay_editors_fold in Hearlier.
  pose proof (write_editor_writes (VObj us)) as Hstep.
  set (val := fun (e : option value) (x : value) =>
                VObj (mergedQueryEditor (VObj us) (default VUndefined e) x)).
  exists earlier. eexists. split; [done|]. split; [|split].
  - rewrite Hall.
    rewrite (keyed_fold_last editor_key val _ Hstep) by done.
    rewrite <- Hearlier. reflexivity.
  - intros f. fold (obj_get_value (editor_key (VObj ps)) earlier).
    assert (Forall (fun kv => is_record kv.2) earlier) as Hrec'.
    { rewrite Hearlier. by apply overlay_editors_records. }
    destruct (obj_get_value_record (editor_key (VObj ps)) earlier Hrec')
      as [-> Hes].
    by apply mergedQueryEditor_overlay.
  - intros k Hk. rewrite Hearlier.
    by apply (keyed_fold_other editor_key val _ Hstep).
Qed.

(** C1, as stated, fails: a legacy editor that has neither a [title] nor a
    [name] does not keep the name of the entry it is merged onto.  The code
    writes [name: qe.title || qe.name] in every case, so the editor of the
    tab 5, named "Query 5" by the server, comes out with the name
    [undefined]; by the words of the specification (no [title] to map, no
    legacy [name] to overwrite with) it would keep "Query 5". *)
Lemma legacy_editor_drops_existing_name :
  let ls := Sample.legacy SampleNameless.sqlLab in
  exists st editor,
    getInitialState Sample.rt Sample.boot5 ls = Ok (st, ls)
    /\ SqlLab.queryEditors (State.sqlLab st) = [VObj editor]
    /\ obj_get "name" editor = Some VUndefined
    /\ editor_field_spec
         (existing_record "5" (serverQueryEditors Sample.rt Sample.boot5))
         SampleNameless.editor None "name"
       = Some (VStr "Query 5")
    /\ obj_get "name" editor
       <> editor_field_spec
            (existing_record "5" (serverQueryEditors Sample.rt Sample.boot5))
            SampleNameless.editor None "name".
Proof.
  intros ls. eexists _, _.
  split; [reflexivity|]. split; [reflexivity|]. split; [reflexivity|].
  split; [reflexivity|]. intros E. vm_compute in E. discriminate.
Qed.

(** C1, amended.  Editor overlay precedence.  Whenever [getInitialState]
    returns, for every legacy editor entry (an object; ids pairwise distinct
    among the legacy entries) the returned editors hold, under the entry's
    id, the existing entry for that id (the one built from the server
    payload, if any) overwritten by the legacy entry's fields, with [name]
    set to the legacy [title || name], the unsaved patch laid over it when
    its id equals the entry's id, and [inLocalStorage] and [loaded] set to
    [true].  For an entry that carries its name (a non-empty [title], or no
    [title] and a [name]) this is the overlay in the words of the
    specification, the [title] mapped onto [name] when present.  An entry
    without an existing counterpart has nothing below the legacy fields and
    becomes a new entry; entries under other ids are left as the server
    built them. *)
Theorem editor_overlay_precedence (rt : Runtime) (boot : BootstrapData.t)
    (ls ls' : Storage) (st : State.t) (us ps : obj) :
  getInitialState rt boot ls = Ok (st, ls') ->
  unsaved_patch ls = VObj us ->
  NoDup (keys us) ->
  NoDup (map editor_key (legacy_list "queryEditors" ls)) ->
  VObj ps ∈ legacy_list "queryEditors" ls ->
  NoDup (keys ps) ->
  exists s merged,
    reconcile rt boot ls = Ok (s, ls')
    /\ SqlLab.queryEditors (State.sqlLab st) = map snd (m_queryEditors s)
    /\ obj_get (editor_key (VObj ps)) (m_queryEditors s) = Some (VObj merged)
    /\ VObj merged ∈ SqlLab.queryEditors (State.sqlLab st)
    /\ (forall f,
          obj_get f merged
          = editor_overlay_field
              (existing_record (editor_key (VObj ps))
                 (serverQueryEditors rt boot)) ps
              (if patch_applies (VObj us) (VObj ps) then Some us else None) f)
    /\ (named ps = true ->
        forall f,
          obj_get f merged
          = editor_field_spec
              (existing_record (editor_key (VObj ps))
                 (serverQueryEditors rt boot)) ps
              (if patch_applies (VObj us) (VObj ps) then Some us else None) f)
    /\ (forall k, k ∉ map editor_key (legacy_list "queryEditors" ls) ->
          obj_get k (m_queryEditors s)
          = obj_get k (serverQueryEditors rt boot)).
Proof.
  intros H Hpatch Hus Hkeys Hin Hps.
  apply getInitialState_legacy in H as (s & seen & Hs & -> & Hfe & _ & _).
  rewrite Hpatch in Hfe.
  destruct (serverQueryEditors_records rt boot) as [Heds Hrec].
  pose proof (overlay_editors_fold _ _ _ _ Hfe) as Hall.
  pose proof (write_editor_writes (VObj us)) as Hstep.
  set (val := fun (e : option value) (x : value) =>
                VObj (mergedQueryEditor (VObj us) (default VUndefined e) x)).
  apply list_elem_of_split in Hin as (pre & post & Hsplit).
  rewrite Hsplit in Hkeys, Hfe.
  assert ((editor_key (VObj ps) ∉ map editor_key pre)
          /\ (editor_key (VObj ps) ∉ map editor_key post)) as [Hpre Hpost].
  { rewrite map_app in Hkeys. cbn [map] in Hkeys.
    apply NoDup_app in Hkeys as (_ & Hdisj & Hrest).
    apply NoDup_cons in Hrest as [Hpost _]. split; [|done].
    intros Hin. apply (Hdisj _ Hin). apply list_elem_of_here. }
  destruct (overlay_editors_last us _ pre post ps _ Hus Heds Hrec Hps Hpost Hfe)
    as (earlier & merged & _ & Hm & Hfld & Hother).
  assert (existing_record (editor_key (VObj ps)) earlier
          = existing_record (editor_key (VObj ps))
              (serverQueryEditors rt boot)) as Hsame.
  { unfold existing_record. by rewrite Hother. }
  rewrite Hsame in Hfld.
  exists s, merged. split; [done|]. split; [done|]. split; [done|].
  split; [by apply (obj_get_values _ _ _ Hm)|]. split; [done|].
  split.
  - intros Hnamed f. rewrite Hfld. by apply editor_overlay_field_named.
  - intros k Hk. rewrite Hall.
    by apply (keyed_fold_other editor_key val _ Hstep).
Qed.

Lemma editor_overlay_precedence_witness :
  let ls := Sample.legacy SampleRun.sqlLab in
  (unsaved_patch ls = VObj []
   /\ NoDup (keys [])
   /\ NoDup (map editor_key (legacy_list "queryEditors" ls))
   /\ VObj Sample.renamed ∈ legacy_list "queryEditors" ls
   /\ NoDup (keys Sample.renamed)
   /\ named Sample.renamed = true)
  /\ exists st merged,
       getInitialState Sample.rt SampleRun.boot ls = Ok (st, ls)
       /\ VObj merged ∈ SqlLab.queryEditors (State.sqlLab st)
       /\ obj_get "id" merged = Some (VNum 5)
       /\ obj_get "name" merged = Some (VStr "Renamed")
       /\ obj_get "inLocalStorage" merged = Some (VBool true)
       /\ obj_get "loaded" merged = Some (VBool true).
Proof.
  intros ls.
  assert (exists st, getInitialState Sample.rt SampleRun.boot ls = Ok (st, ls))
    as [st H0].
  { vm_compute. eexists. reflexivity. }
  assert (unsaved_patch ls = VObj []) as H1 by reflexivity.
  assert (NoDup (keys [])) as H2 by constructor.
  assert (NoDup (map editor_key (legacy_list "queryEditors" ls))) as H3
    by distinct_names.
  assert (VObj Sample.renamed ∈ legacy_list "queryEditors" ls) as H4
    by apply list_elem_of_here.
  assert (NoDup (keys Sample.renamed)) as H5 by distinct_names.
  assert (named Sample.renamed = true) as H6 by reflexivity.
  split; [done|].
  destruct (editor_overlay_precedence Sample.rt SampleRun.boot ls ls st []
              Sample.renamed H0 H1 H2 H3 H4 H5)
    as (s & merged & _ & _ & _ & Hin & _ & Hspec & _).
  exists st, merged. split; [exact H0|]. split; [exact Hin|].
  rewrite !(Hspec H6). by vm_compute.
Defined.

(** ** The table overlay and the expansion tie-break *)

Lemma strict_eq_true (a b : value) : strict_eq a b = true -> a = b.
Proof.
  destruct a, b; cbn; try done.
  - by intros ->%Bool.eqb_prop.
  - by intros ->%Z.eqb_eq.
  - by intros ->%String.eqb_eq.
Qed.

Lemma strict_eq_sym (a b : value) : strict_eq a b = strict_eq b a.
Proof.
  destruct a, b; cbn; try done.
  - by destruct b, b0.
  - apply Z.eqb_sym.
  - apply String.eqb_sym.
Qed.

Lemma Set_has_snoc (x y : value) (s : list value) :
  Set_has x (s ++ [y]) = Set_has x s || strict_eq x y.
Proof. unfold Set_has. rewrite existsb_app. cbn. by rewrite orb_false_r. Qed.

(** The set holds the owners met so far. *)
Lemma Set_has_seen_after (x : value) (seen legacy : list value) :
  Set_has x (seen_after seen legacy)
  = Set_has x seen || existsb (fun t' => strict_eq x (owner t')) legacy.
Proof.
  revert seen.
  induction legacy as [|table rest IH]; intros seen; cbn [seen_after existsb].
  - by rewrite orb_false_r.
  - rewrite IH. destruct (Set_has (owner table) seen) eqn:Hhas; cbn [negb].
    + destruct (strict_eq x (owner table)) eqn:Heq; [|done].
      apply strict_eq_true in Heq. subst x. by rewrite Hhas.
    + by rewrite Set_has_snoc, orb_assoc.
Qed.

Lemma expansion_app (seen pre post : list value) :
  expansion seen (pre ++ post)
  = expansion seen pre ++ expansion (seen_after seen pre) post.
Proof.
  revert seen. induction pre as [|table pre IH]; intros seen; [done|].
  cbn. by rewrite IH.
Qed.

Lemma expansion_fst (seen legacy : list value) :
  map fst (expansion seen legacy) = legacy.
Proof.
  revert seen. induction legacy as [|table rest IH]; intros seen; [done|].
  cbn. by rewrite IH.
Qed.

Lemma seen_after_snoc (seen pre : list value) (table : value) :
  seen_after seen (pre ++ [table])
  = if negb (Set_has (owner table) (seen_after seen pre))
    then seen_after seen pre ++ [owner table]
    else seen_after seen pre.
Proof.
  revert seen. induction pre as [|t' pre IH]; intros seen; [done|].
  cbn [app seen_after]. apply IH.
Qed.

Lemma first_for_editor_seen (pre : list value) (table : value) :
  negb (Set_has (owner table) (seen_after [] pre)) = first_for_editor pre table.
Proof. unfold first_for_editor. by rewrite Set_has_seen_after. Qed.

(** From the empty set, the flag of a table is the first-wins flag. *)
Lemma expansion_split (pre post : list value) (table : value) :
  expansion [] (pre ++ table :: post)
  = expansion [] pre
    ++ (table, first_for_editor pre table)
    :: expansion (seen_after [] (pre ++ [table])) post.
Proof.
  rewrite expansion_app. cbn [expansion].
  by rewrite seen_after_snoc, first_for_editor_seen.
Qed.

(** When the reduction returns, it has written, for every legacy table, the
    merged table with the flag of the scan. *)
Lemma mergeTables_fold (tables : obj) (legacy seen seen' : list value)
    (merged final : obj) :
  foldM (mergeTable tables) legacy (seen, merged) = Ok (seen', final) ->
  seen' = seen_after seen legacy
  /\ final = fold_left (write_table tables) (expansion seen legacy) merged.
Proof.
  revert seen merged.
  induction legacy as [|table rest IH]; intros seen merged H.
  - by injection H as <- <-.
  - cbn [foldM] in H. apply bind_Ok in H as ([seen1 merged1] & H1 & H).
    unfold mergeTable, get in H1. destruct (nullish table); [done|].
    cbn [bind] in H1. apply bind_Ok in H1 as (key & Hkey & [= <- <-]).
    apply IH in H as [Hs Hf]. apply key_name_Ok in Hkey. subst key.
    split; [exact Hs|exact Hf].
Qed.

Lemma write_table_writes (tables o : obj) (te : value * bool) :
  NoDup (keys o) ->
  keyed_write (table_key te.1)
    (VObj (mergedTable (obj_get_value (table_key te.1) tables) te.1 te.2))
    o (write_table tables o te).
Proof. intros Ho. by apply keyed_write_copy_put. Qed.

(** C2.  Expansion tie-break.  Whenever [getInitialState] returns, scanning
    the legacy tables in their order (ids pairwise distinct), the table
    merged under an entry's id, which is one of the returned tables, has
    [expanded] true when the entry is the first one met for its
    [queryEditorId] and false when an earlier entry has the same
    [queryEditorId], whatever [expanded] the legacy record carried; hence
    among the legacy tables of one [queryEditorId] at most one is
    expanded. *)
Theorem expansion_first_wins (rt : Runtime) (boot : BootstrapData.t)
    (ls ls' : Storage) (st : State.t) :
  getInitialState rt boot ls = Ok (st, ls') ->
  NoDup (map table_key (legacy_list "tables" ls)) ->
  exists s,
    reconcile rt boot ls = Ok (s, ls')
    /\ SqlLab.tables (State.sqlLab st) = map snd (m_tables s)
    /\ (forall pre table post,
          legacy_list "tables" ls = pre ++ table :: post ->
          exists merged,
            obj_get (table_key table) (m_tables s) = Some (VObj merged)
            /\ VObj merged ∈ SqlLab.tables (State.sqlLab st)
            /\ obj_get "expanded" merged
               = Some (VBool (first_for_editor pre table)))
    /\ (forall t1 t2 m1 m2,
          t1 ∈ legacy_list "tables" ls -> t2 ∈ legacy_list "tables" ls ->
          strict_eq (owner t1) (owner t2) = true ->
          obj_get (table_key t1) (m_tables s) = Some (VObj m1) ->
          obj_get (table_key t2) (m_tables s) = Some (VObj m2) ->
          is_expanded m1 = true -> is_expanded m2 = true ->
          t1 = t2).
Proof.
  intros H Hkeys.
  apply getInitialState_legacy in H as (s & seen & Hs & -> & _ & Hft & _).
  apply mergeTables_fold in Hft as [_ Hft].
  set (legacy := legacy_list "tables" ls) in *.
  set (tables := serverTables (BootstrapData.active_tab boot)) in *.
  destruct (serverTables_records (BootstrapData.active_tab boot)) as [Hnd _].
  fold tables in Hnd.
  pose proof (write_table_writes tables) as Hstep.
  set (val := fun (_ : option value) (te : value * bool) =>
                VObj (mergedTable (obj_get_value (table_key te.1) tables)
                        te.1 te.2)).
  assert (forall pre table post, legacy = pre ++ table :: post ->
            obj_get (table_key table) (m_tables s)
            = Some (VObj (mergedTable (obj_get_value (table_key table) tables)
                            table (first_for_editor pre table)))) as Hlook.
  { intros pre table post Hsplit. rewrite Hft.
    pose proof (keyed_fold_lookup (fun te => table_key te.1) val
                  (write_table tables) Hstep
                  (expansion [] legacy)
                  (table, first_for_editor pre table) tables Hnd) as Hl.
    cbn [fst] in Hl. rewrite Hl; [done| |].
    - rewrite <- (map_map fst table_key). by rewrite expansion_fst.
    - rewrite Hsplit, expansion_split. apply elem_of_app. right.
      apply list_elem_of_here. }
  exists s. split; [done|]. split; [done|]. split.
  - intros pre table post Hsplit. eexists.
    split; [by eapply Hlook|]. split.
    + cbn [assemble State.sqlLab SqlLab.tables].
      eapply obj_get_values. by eapply Hlook.
    + unfold mergedTable. apply obj_get_put_eq.
  - intros t1 t2 m1 m2 H1 H2 Hsame Hm1 Hm2 He1 He2.
    apply list_elem_of_split in H1 as (pre1 & post1 & E1).
    apply list_elem_of_split in H2 as (pre2 & post2 & E2).
    pose proof (Hlook _ _ _ E1) as L1. pose proof (Hlook _ _ _ E2) as L2.
    rewrite Hm1 in L1. rewrite Hm2 in L2.
    injection L1 as ->. injection L2 as ->.
    unfold is_expanded, mergedTable in He1, He2.
    rewrite obj_get_put_eq in He1, He2.
    destruct (first_for_editor pre1 t1) eqn:F1; [|done].
    destruct (first_for_editor pre2 t2) eqn:F2; [|done].
    rewrite E1 in E2.
    destruct (lt_eq_lt_dec (length pre1) (length pre2)) as [[Hlt|Heq]|Hgt].
    + exfalso. pose proof (split_earlier _ _ _ _ _ _ E2 Hlt) as Hin.
      unfold first_for_editor in F2. apply negb_true_iff in F2.
      assert (existsb (fun t' => strict_eq (owner t2) (owner t')) pre2 = true)
        as Hex; [|congruence].
      apply existsb_exists. exists t1. split; [by apply list_elem_of_In|].
      by rewrite strict_eq_sym.
    + by apply (split_same_length _ _ _ _ _ _ E2).
    + exfalso. symmetry in E2.
      pose proof (split_earlier _ _ _ _ _ _ E2 Hgt) as Hin.
      unfold first_for_editor in F1. apply negb_true_iff in F1.
      assert (existsb (fun t' => strict_eq (owner t1) (owner t')) pre1 = true)
        as Hex; [|congruence].
      apply existsb_exists. exists t2. split; [by apply list_elem_of_In|done].
Qed.

Lemma expansion_first_wins_witness :
  let ls := Sample.legacy SampleRun.sqlLab in
  NoDup (map table_key (legacy_list "tables" ls))
  /\ exists st s m1 m2 m3,
       getInitialState Sample.rt SampleRun.boot ls = Ok (st, ls)
       /\ reconcile Sample.rt SampleRun.boot ls = Ok (s, ls)
       /\ obj_get "1" (m_tables s) = Some (VObj m1)
       /\ obj_get "2" (m_tables s) = Some (VObj m2)
       /\ obj_get "3" (m_tables s) = Some (VObj m3)
       /\ Forall (fun m => VObj m ∈ SqlLab.tables (State.sqlLab st))
            [m1; m2; m3]
       /\ obj_get "expanded" m1 = Some (VBool true)
       /\ obj_get "expanded" m2 = Some (VBool false)
       /\ obj_get "expanded" m3 = Some (VBool true).
Proof.
  intros ls.
  assert (exists st, getInitialState Sample.rt SampleRun.boot ls = Ok (st, ls))
    as [st H0].
  { vm_compute. eexists. reflexivity. }
  assert (NoDup (map table_key (legacy_list "tables" ls))) as H1
    by distinct_names.
  split; [exact H1|].
  destruct (expansion_first_wins Sample.rt SampleRun.boot ls ls st H0 H1)
    as (s & Hs & Hret & Hfirst & _).
  destruct (Hfirst [] _ _ eq_refl) as (m1 & L1 & I1 & E1).
  destruct (Hfirst [_] _ _ eq_refl) as (m2 & L2 & I2 & E2).
  destruct (Hfirst [_; _] _ _ eq_refl) as (m3 & L3 & I3 & E3).
  exists st, s, m1, m2, m3. split; [exact H0|]. split; [exact Hs|].
  split; [exact L1|]. split; [exact L2|]. split; [exact L3|].
  split; [by repeat constructor|]. by repeat split.
Defined.

(** ** The query overlay *)

Lemma obj_assign_put (k : string) (v : value) (o : obj) :
  k <> "__proto__" -> obj_assign k v o = obj_put k v o.
Proof.
  intros Hk. unfold obj_assign. by destruct (String.eqb_spec k "__proto__").
Qed.

Lemma stampedQuery_field (ps : obj) (f : string) :
  NoDup (keys ps) ->
  obj_get f (stampedQuery (VObj ps))
  = if String.eqb f "inLocalStorage" then Some (VBool true) else obj_get f ps.
Proof.
  intros Hps. unfold stampedQuery. rewrite obj_get_put.
  destruct (String.eqb f "inLocalStorage"); [done|].
  by apply obj_get_copy.
Qed.

(** When the loop returns, it has put every legacy query, stamped, under its
    id. *)
Lemma mergeQueries_fold (legacy : list value) (queries final : obj) :
  "__proto__" ∉ map query_key legacy ->
  foldM mergeQuery legacy queries = Ok final ->
  final
  = fold_left
      (fun qs query => obj_put (query_key query) (VObj (stampedQuery query)) qs)
      legacy queries.
Proof.
  revert queries.
  induction legacy as [|query rest IH]; intros queries Hproto H.
  - by injection H as <-.
  - cbn [map] in Hproto. apply not_elem_of_cons in Hproto as [Hne Hproto].
    cbn [foldM] in H. apply bind_Ok in H as (q1 & H1 & H).
    unfold mergeQuery, get in H1. destruct (nullish query); [done|].
    cbn [bind] in H1. apply bind_Ok in H1 as (key & Hkey & [= <-]).
    apply key_name_Ok in Hkey. fold (query_key query) in Hkey. subst key.
    rewrite obj_assign_put in H by done.
    cbn [fold_left]. by apply IH.
Qed.

(** C7.  Query overlay.  Whenever [getInitialState] returns, for every
    legacy query (ids pairwise distinct, none of them the name of the
    prototype accessor) the entry of the returned query map under the
    query's id is the legacy query's fields plus [inLocalStorage: true],
    whether the server had a query under that id or not; the entries of the
    server whose ids are not ids of legacy queries are unchanged. *)
Theorem query_overlay (rt : Runtime) (boot : BootstrapData.t)
    (ls ls' : Storage) (st : State.t) :
  getInitialState rt boot ls = Ok (st, ls') ->
  NoDup (map query_key (legacy_queries ls)) ->
  "__proto__" ∉ map query_key (legacy_queries ls) ->
  (forall ps, VObj ps ∈ legacy_queries ls -> NoDup (keys ps) ->
     exists merged,
       obj_get (query_key (VObj ps)) (SqlLab.queries (State.sqlLab st))
       = Some (VObj merged)
       /\ obj_get "inLocalStorage" merged = Some (VBool true)
       /\ forall f, f <> "inLocalStorage" ->
            obj_get f merged = obj_get f ps)
  /\ (forall k, k ∉ map query_key (legacy_queries ls) ->
        obj_get k (SqlLab.queries (State.sqlLab st))
        = obj_get k (spread_into [] (BootstrapData.queries boot))).
Proof.
  intros H Hkeys Hproto.
  apply getInitialState_legacy in H as (s & seen & Hs & -> & _ & _ & Hfq).
  apply mergeQueries_fold in Hfq; [|done].
  cbn [assemble State.sqlLab SqlLab.queries]. rewrite Hfq.
  set (step := fun (qs : obj) (query : value) => _).
  assert (forall o x, NoDup (keys o) ->
            keyed_write (query_key x) (VObj (stampedQuery x)) o (step o x))
    as Hstep.
  { intros o x Ho. by apply keyed_write_put. }
  assert (NoDup (keys (spread_into [] (BootstrapData.queries boot)))) as Hnd.
  { apply NoDup_keys_spread. constructor. }
  split.
  - intros ps Hin Hps. eexists. split; [|split].
    + by apply (keyed_fold_lookup query_key
                  (fun _ x => VObj (stampedQuery x)) step Hstep).
    + by rewrite stampedQuery_field.
    + intros f Hf. rewrite stampedQuery_field by done.
      by destruct (String.eqb_spec f "inLocalStorage").
  - intros k Hk.
    by apply (keyed_fold_other query_key
                (fun _ x => VObj (stampedQuery x)) step Hstep).
Qed.

Lemma query_overlay_witness :
  let ls := Sample.legacy SampleRun.sqlLab in
  (NoDup (map query_key (legacy_queries ls))
   /\ ("__proto__" ∉ map query_key (legacy_queries ls))
   /\ obj_get "q1" (spread_into [] (BootstrapData.queries SampleRun.boot))
      = Some (VObj [("id", VStr "q1"); ("status", VStr "success")]))
  /\ exists st q1,
       getInitialState Sample.rt SampleRun.boot ls = Ok (st, ls)
       /\ obj_get "q1" (SqlLab.queries (State.sqlLab st)) = Some (VObj q1)
       /\ obj_get "status" q1 = Some (VStr "failed")
       /\ obj_get "inLocalStorage" q1 = Some (VBool true).
Proof.
  intros ls.
  assert (exists st, getInitialState Sample.rt SampleRun.boot ls = Ok (st, ls))
    as [st H0].
  { vm_compute. eexists. reflexivity. }
  assert (NoDup (map query_key (legacy_queries ls))) as H1 by distinct_names.
  assert ("__proto__" ∉ map query_key (legacy_queries ls)) as H2.
  { apply (bool_decide_unpack _). vm_compute. exact I. }
  split; [split; [exact H1|split; [exact H2|reflexivity]]|].
  destruct (query_overlay Sample.rt SampleRun.boot ls ls st H0 H1 H2)
    as [Hq _].
  assert (NoDup (keys SampleQueries.failed)) as H3 by distinct_names.
  destruct (Hq SampleQueries.failed (list_elem_of_here _ _) H3)
    as (q1 & L1 & Hstamp & Hfields).
  exists st, q1. split; [exact H0|]. split; [exact L1|].
  split; [|exact Hstamp]. by rewrite Hfields.
Defined.

(** ** The table materializer *)

Lemma obj_get_without (k f : string) (o : obj) :
  obj_get f (List.filter (fun kv => negb (String.eqb kv.1 k)) o)
  = if String.eqb f k then None else obj_get f o.
Proof.
  induction o as [|[k0 v0] o IH]; cbn [List.filter obj_get fst].
  - by destruct (String.eqb f k).
  - destruct (String.eqb_spec k0 k) as [->|Hne]; cbn [negb obj_get].
    + rewrite IH. destruct (String.eqb_spec f k) as [->|Hf]; [done|].
      by destruct (String.eqb_spec f k).
    + rewrite IH. destruct (String.eqb_spec f k0) as [->|Hf]; [|done].
      by destruct (String.eqb_spec k0 k).
Qed.

Lemma NoDup_keys_without (k : string) (o : obj) :
  NoDup (keys o) ->
  NoDup (keys (List.filter (fun kv => negb (String.eqb kv.1 k)) o)).
Proof.
  intros Hnd. apply (sublist_NoDup _ _ Hnd).
  unfold keys. apply (fmap_sublist fst). clear Hnd.
  induction o as [|[k0 v0] o IH]; cbn [List.filter fst]; [done|].
  destruct (negb (String.eqb k0 k));
    [apply sublist_skip|apply sublist_cons]; exact IH.
Qed.

Lemma obj_rest_field (k f : string) (o : obj) :
  NoDup (keys o) ->
  obj_get f (obj_rest k o) = if String.eqb f k then None else obj_get f o.
Proof.
  intros Hnd. unfold obj_rest.
  rewrite obj_get_copy by (by apply NoDup_keys_without).
  apply obj_get_without.
Qed.

Lemma elem_of_described (schemas : list TableSchema.t)
    (tableSchema : TableSchema.t) (d : obj) :
  (tableSchema, d) ∈ described schemas
  <-> tableSchema ∈ schemas /\ TableSchema.description tableSchema = Some d.
Proof.
  unfold described. rewrite list_elem_of_omap. split.
  - intros (x & Hx & Hd). destruct (TableSchema.description x) eqn:E; [|done].
    cbn in Hd. injection Hd as -> ->. done.
  - intros [Hin Hd]. exists tableSchema. split; [done|]. by rewrite Hd.
Qed.

Lemma described_ids_sublist (schemas : list TableSchema.t) :
  sublist (map (fun e => TableSchema.id e.1) (described schemas))
          (map TableSchema.id schemas).
Proof.
  induction schemas as [|x l IH]; [done|]. unfold described. cbn.
  destruct (TableSchema.description x); cbn; by constructor.
Qed.

Lemma serverTables_fold (a : ActiveTab.t) :
  forall o entry, NoDup (keys o) ->
    keyed_write (string_of_Z (TableSchema.id entry.1))
      (VObj (serverTable entry.1 entry.2)) o (addServerTable o entry).
Proof. intros o entry Ho. by apply keyed_write_copy_put. Qed.

(** C8.  Table materializer.  Without an active tab the mapping is empty.
    With one, the mapping is a total function of the record (no exception can
    arise); its keys are exactly the ids of the table-schema entries whose
    description is not null; and for each such entry (schema ids pairwise
    distinct) the table under its id has [dataPreviewQueryId] taken out of the
    description, the rest of the description as [persistData], [expanded]
    equal to the source flag, and [initialized] true. *)
Theorem table_materializer :
  serverTables None = []
  /\ forall a : ActiveTab.t,
       (forall k,
          k ∈ keys (serverTables (Some a))
          <-> exists tableSchema,
                tableSchema ∈ ActiveTab.table_schemas a
                /\ TableSchema.description tableSchema <> None
                /\ k = string_of_Z (TableSchema.id tableSchema))
       /\ (NoDup (map TableSchema.id (ActiveTab.table_schemas a)) ->
           forall tableSchema d,
             tableSchema ∈ ActiveTab.table_schemas a ->
             TableSchema.description tableSchema = Some d ->
             NoDup (keys d) ->
             exists table persistData,
               obj_get (string_of_Z (TableSchema.id tableSchema))
                 (serverTables (Some a)) = Some (VObj table)
               /\ obj_get "dataPreviewQueryId" table
                  = Some (prop (VObj d) "dataPreviewQueryId")
               /\ obj_get "persistData" table = Some (VObj persistData)
               /\ (forall f,
                     obj_get f persistData
                     = if String.eqb f "dataPreviewQueryId" then None
                       else obj_get f d)
               /\ obj_get "expanded" table
                  = Some (TableSchema.expanded tableSchema)
               /\ obj_get "initialized" table = Some (VBool true)).
Proof.
  split; [done|]. intros a. cbn [serverTables].
  pose proof (serverTables_fold a) as Hstep.
  assert (NoDup (keys [])) as Hnil by constructor.
  split.
  - intros k.
    rewrite (keyed_fold_keys (fun e => string_of_Z (TableSchema.id e.1))
               (fun _ e => VObj (serverTable e.1 e.2)) addServerTable Hstep)
      by done.
    rewrite list_elem_of_fmap. split.
    + intros [Hk|([ts d] & -> & Hin)]; [by apply elem_of_nil in Hk|].
      apply elem_of_described in Hin as [Hin Hd].
      exists ts. split; [done|]. split; [by rewrite Hd|done].
    + intros (ts & Hin & Hd & ->). right.
      destruct (TableSchema.description ts) as [d|] eqn:E; [|done].
      exists (ts, d). split; [done|]. by apply elem_of_described.
  - intros Hids ts d Hin Hd Hnd.
    exists (serverTable ts d), (obj_rest "dataPreviewQueryId" d).
    split; [|split; [done|split; [done|split; [|done]]]].
    + apply (keyed_fold_lookup (fun e => string_of_Z (TableSchema.id e.1))
               (fun _ e => VObj (serverTable e.1 e.2)) addServerTable Hstep
               _ (ts, d)); [done| |by apply elem_of_described].
      rewrite <- (map_map (fun e => TableSchema.id e.1) string_of_Z).
      apply (NoDup_fmap_2 string_of_Z).
      exact (sublist_NoDup _ _ Hids (described_ids_sublist _)).
    + intros f. by apply obj_rest_field.
Qed.

Lemma table_materializer_witness :
  let schemas := ActiveTab.table_schemas SampleTab.active in
  let tables := serverTables (Some SampleTab.active) in
  (NoDup (map TableSchema.id schemas)
   /\ SampleTab.described_schema ∈ schemas
   /\ TableSchema.description SampleTab.described_schema
      = Some SampleTab.description
   /\ NoDup (keys SampleTab.description))
  /\ "7" ∈ keys tables
  /\ ("8" ∉ keys tables)
  /\ exists table persistData,
       obj_get "7" tables = Some (VObj table)
       /\ obj_get "dataPreviewQueryId" table = Some (VStr "preview1")
       /\ obj_get "persistData" table = Some (VObj persistData)
       /\ obj_get "columns" persistData = Some (VArr [])
       /\ obj_get "dataPreviewQueryId" persistData = None
       /\ obj_get "expanded" table = Some (VBool false)
       /\ obj_get "initialized" table = Some (VBool true).
Proof.
  intros schemas tables.
  assert (NoDup (map TableSchema.id schemas)) as H1.
  { apply (bool_decide_unpack _). vm_compute. exact I. }
  assert (SampleTab.described_schema ∈ schemas) as H2
    by apply list_elem_of_here.
  assert (NoDup (keys SampleTab.description)) as H3 by distinct_names.
  destruct table_materializer as [_ Hspec].
  destruct (Hspec SampleTab.active) as [Hkeys Hfields].
  split; [done|]. split; [|split].
  - apply Hkeys. by exists SampleTab.described_schema.
  - intros Hk8. apply Hkeys in Hk8 as (ts & Hin & Hd & Hk).
    apply elem_of_cons in Hin as [->|Hin]; [done|].
    apply list_elem_of_singleton in Hin as ->. done.
  - destruct (Hfields H1 _ _ H2 eq_refl H3)
      as (table & pd & L & Hp & Hpd & Hrest & He & Hi).
    exists table, pd. by rewrite !Hrest.
Defined.

(** ** Clean-slate detection *)

(** C4.  Clean-slate detection.  When the legacy slot parses to a [sqlLab]
    object whose [queryEditors] list is empty, [getInitialState] removes the
    slot ["redux"] and does no overlay: the returned state is the server-only
    state, the one returned when there is no legacy slot at all. *)
Theorem clean_slate_detection (rt : Runtime) (boot : BootstrapData.t)
    (ls : Storage) (v : value) (sqlLab : obj) :
  ls !! "redux" = Some (JsonText v) ->
  prop v "sqlLab" = VObj sqlLab ->
  obj_get "queryEditors" sqlLab = Some (VArr []) ->
  getInitialState rt boot ls = Ok (serverOnly rt boot, delete "redux" ls)
  /\ delete "redux" ls !! "redux" = None
  /\ getInitialState rt boot (delete "redux" ls)
     = Ok (serverOnly rt boot, delete "redux" ls).
Proof.
  intros Hslot Hsql Heds.
  assert (nullish v = false) as Hv by (by destruct v).
  split; [|split].
  - apply (getInitialState_clean_slate rt boot ls v Hslot).
    + unfold opt_chain. by rewrite Hv, Hsql.
    + rewrite Hsql. cbn. by rewrite Heds.
  - apply lookup_delete_eq.
  - apply getInitialState_no_legacy. by rewrite lookup_delete_eq.
Qed.

Lemma clean_slate_detection_witness :
  let ls := Sample.legacy (VObj [("queryEditors", VArr [])]) in
  (ls !! "redux"
   = Some (JsonText (VObj [("sqlLab", VObj [("queryEditors", VArr [])])]))
   /\ prop (VObj [("sqlLab", VObj [("queryEditors", VArr [])])]) "sqlLab"
      = VObj [("queryEditors", VArr [])]
   /\ obj_get "queryEditors" [("queryEditors", VArr [])] = Some (VArr []))
  /\ getInitialState Sample.rt Sample.boot5 ls
     = Ok (serverOnly Sample.rt Sample.boot5, ∅).
Proof.
  intros ls.
  assert (ls !! "redux"
          = Some (JsonText (VObj [("sqlLab", VObj [("queryEditors", VArr [])])])))
    as H1 by apply lookup_singleton_eq.
  split; [done|].
  destruct (clean_slate_detection Sample.rt Sample.boot5 ls _ _
              H1 eq_refl eq_refl) as [Hstate _].
  rewrite Hstate. reflexivity.
Defined.

(** ** Malformed legacy storage *)

(** C3, as stated, fails: a slot that is not JSON makes [JSON.parse] throw,
    and a [sqlLab] member without an editor list makes the read of [length]
    throw; in both cases the exception reaches the caller and no state is
    returned. *)
Lemma malformed_legacy_not_recovered :
  getInitialState Sample.rt Sample.boot5 {[ "redux" := Malformed ]}
  = Throw SyntaxError
  /\ getInitialState Sample.rt Sample.boot5 (Sample.legacy (VObj []))
     = Throw TypeError
  /\ getInitialState Sample.rt Sample.boot5 {[ "redux" := Malformed ]}
     <> Ok (serverOnly Sample.rt Sample.boot5, {[ "redux" := Malformed ]}).
Proof. split; [reflexivity|]. split; [reflexivity|discriminate]. Qed.

(** C3, amended.  A legacy slot that is absent or empty, or that holds a JSON
    value without a [sqlLab] member, is treated as the absence of legacy
    state: no exception, the storage untouched, and the returned state the
    one computed from the server-sourced inputs alone.  A slot that is not
    valid JSON is not recovered: the [SyntaxError] of [JSON.parse] reaches the
    caller; and so does a [TypeError] when the [sqlLab] member has no editor
    list. *)
Theorem legacy_slot_recovery :
  (forall rt boot (ls : Storage),
     treated_as_absent (ls !! "redux") = true ->
     getInitialState rt boot ls = Ok (serverOnly rt boot, ls))
  /\ (forall rt boot (ls : Storage),
        ls !! "redux" = Some Malformed ->
        getInitialState rt boot ls = Throw SyntaxError)
  /\ (forall rt boot (ls : Storage) v,
        ls !! "redux" = Some (JsonText v) ->
        truthy (opt_chain v "sqlLab") = true ->
        nullish (prop (prop v "sqlLab") "queryEditors") = true ->
        getInitialState rt boot ls = Throw TypeError).
Proof.
  split; [|split].
  - intros rt boot ls Habs.
    destruct (ls !! "redux") as [[| |v]|] eqn:Hslot; cbn in Habs.
    + apply getInitialState_no_legacy. by rewrite Hslot.
    + done.
    + apply (getInitialState_no_sqlLab rt boot ls v Hslot).
      by apply negb_true_iff.
    + apply getInitialState_no_legacy. by rewrite Hslot.
  - apply getInitialState_malformed.
  - apply getInitialState_no_editor_list.
Qed.

Lemma legacy_slot_recovery_witness :
  let no_sqlLab : Storage := {[ "redux" := JsonText (VObj [("other", VNum 1)]) ]} in
  let not_json : Storage := {[ "redux" := Malformed ]} in
  let no_editors : Storage := Sample.legacy (VObj [("tables", VArr [])]) in
  (treated_as_absent (no_sqlLab !! "redux") = true
   /\ getInitialState Sample.rt Sample.boot5 no_sqlLab
      = Ok (serverOnly Sample.rt Sample.boot5, no_sqlLab))
  /\ (treated_as_absent ((∅ : Storage) !! "redux") = true
      /\ getInitialState Sample.rt Sample.boot5 ∅
         = Ok (serverOnly Sample.rt Sample.boot5, ∅))
  /\ (not_json !! "redux" = Some Malformed
      /\ getInitialState Sample.rt Sample.boot5 not_json = Throw SyntaxError)
  /\ (no_editors !! "redux"
      = Some (JsonText (VObj [("sqlLab", VObj [("tables", VArr [])])]))
      /\ getInitialState Sample.rt Sample.boot5 no_editors = Throw TypeError).
Proof.
  intros no_sqlLab not_json no_editors.
  destruct legacy_slot_recovery as (Habsent & Hsyntax & Htype).
  assert (treated_as_absent (no_sqlLab !! "redux") = true) as H1
    by reflexivity.
  assert (treated_as_absent ((∅ : Storage) !! "redux") = true) as H2
    by reflexivity.
  assert (not_json !! "redux" = Some Malformed) as H3 by reflexivity.
  assert (no_editors !! "redux"
          = Some (JsonText (VObj [("sqlLab", VObj [("tables", VArr [])])])))
    as H4 by reflexivity.
  split; [split; [exact H1|exact (Habsent _ _ _ H1)]|].
  split; [split; [exact H2|exact (Habsent _ _ _ H2)]|].
  split; [split; [exact H3|exact (Hsyntax _ _ _ H3)]|].
  split; [exact H4|]. exact (Htype _ _ _ _ H4 eq_refl eq_refl).
Defined.

(** ** The unsaved editor *)




(** ** Own-property order *)

Lemma array_index_canonical (k : string) (i : N) :
  array_index k = Some i -> k = NilZero.string_of_uint (N.to_uint i).
Proof.
  unfold array_index. destruct (NilZero.uint_of_string k) as [u|]; [|done].
  destruct (String.eqb_spec (NilZero.string_of_uint (N.to_uint (N.of_uint u))) k)
    as [Heq|]; [|done].
  destruct (N.of_uint u <? 4294967295)%N; [|done].
  cbn. by intros [= <-].
Qed.

Lemma array_index_inj (k1 k2 : string) (i : N) :
  array_index k1 = Some i -> array_index k2 = Some i -> k1 = k2.
Proof.
  intros H1%array_index_canonical H2%array_index_canonical. congruence.
Qed.

#[local] Instance key_before_trans : Transitive key_before.
Proof.
  intros a b c. unfold key_before.
  destruct (array_index a), (array_index b), (array_index c); try done.
  apply N.lt_trans.
Qed.

Lemma key_before_non_index (k1 k2 : string) :
  array_index k2 = None -> key_before k1 k2.
Proof.
  intros H. unfold key_before. rewrite H. by destruct (array_index k1).
Qed.

Lemma first_appearances_snoc (K : list string) (k : string) :
  first_appearances (K ++ [k])
  = first_appearances K ++ (if existsb (String.eqb k) K then [] else [k]).
Proof.
  induction K as [|k0 K IH]; [done|].
  cbn [app first_appearances existsb]. rewrite IH, List.filter_app.
  f_equal. f_equal.
  destruct (String.eqb_spec k k0) as [->|Hne]; cbn [orb].
  - destruct (existsb _ K); cbn; [done|]. by rewrite String.eqb_refl.
  - destruct (existsb _ K); cbn; [done|].
    by destruct (String.eqb_spec k k0).
Qed.

Lemma existsb_eqb_elem (k : string) (K : list string) :
  existsb (String.eqb k) K = true <-> k ∈ K.
Proof.
  rewrite existsb_exists. split.
  - intros (x & Hx & ->%String.eqb_eq). by apply list_elem_of_In.
  - intros Hk. exists k. split; [by apply list_elem_of_In|].
    apply String.eqb_refl.
Qed.

(** *** Where a new property goes *)

Lemma obj_put_existing (k : string) (v : value) (o : obj) :
  k ∈ keys o -> keys (obj_put k v o) = keys o.
Proof.
  intros Hk%obj_has_true. unfold obj_put. rewrite Hk. apply keys_replace.
Qed.

Lemma obj_put_new_name (k : string) (v : value) (o : obj) :
  k ∉ keys o -> array_index k = None -> obj_put k v o = o ++ [(k, v)].
Proof.
  intros Hk Hidx. unfold obj_put.
  destruct (obj_has k o) eqn:Hhas; [by apply obj_has_true in Hhas|].
  by rewrite Hidx.
Qed.

Lemma obj_put_new_index (k : string) (v : value) (o : obj) (i : N) :
  k ∉ keys o -> array_index k = Some i ->
  obj_put k v o = obj_insert_index i k v o.
Proof.
  intros Hk Hidx. unfold obj_put.
  destruct (obj_has k o) eqn:Hhas; [by apply obj_has_true in Hhas|].
  by rewrite Hidx.
Qed.

(** A new index larger than all the names before it goes last. *)
Lemma obj_insert_index_end (i : N) (k : string) (v : value) (o : obj) :
  array_index k = Some i ->
  Forall (fun k' => key_before k' k) (keys o) ->
  obj_insert_index i k v o = o ++ [(k, v)].
Proof.
  intros Hidx. induction o as [|[k0 v0] o IH]; intros Hall; [done|].
  cbn in Hall. apply Forall_cons in Hall as [H0 Hall].
  cbn [obj_insert_index app]. unfold key_before in H0. rewrite Hidx in H0.
  destruct (array_index k0) as [j|]; [|done].
  apply N.ltb_lt in H0. rewrite H0. by rewrite IH.
Qed.

Lemma StronglySorted_app_inv {A : Type} (R : A -> A -> Prop) (l1 l2 : list A) :
  StronglySorted R (l1 ++ l2) ->
  StronglySorted R l1 /\ StronglySorted R l2
  /\ forall x y, x ∈ l1 -> y ∈ l2 -> R x y.
Proof.
  induction l1 as [|a l1 IH]; cbn; intros H.
  - split; [constructor|]. split; [done|]. intros x y Hx. by apply elem_of_nil in Hx.
  - apply StronglySorted_inv in H as [Hs Hall].
    destruct (IH Hs) as (H1 & H2 & H12).
    rewrite Forall_app in Hall. destruct Hall as [Ha1 Ha2].
    split; [by constructor|]. split; [done|].
    intros x y [->|Hx]%elem_of_cons Hy.
    + rewrite Forall_forall in Ha2. by apply Ha2.
    + by apply H12.
Qed.

(** Copying an object whose properties are in own-property order gives the
    same list of properties. *)
Lemma fold_put_ordered (pre suf : obj) :
  NoDup (keys (pre ++ suf)) ->
  StronglySorted key_before (keys (pre ++ suf)) ->
  fold_left (fun acc kv => obj_put kv.1 kv.2 acc) suf pre = pre ++ suf.
Proof.
  revert pre. induction suf as [|[k v] suf IH]; intros pre Hnd Hs.
  - by rewrite app_nil_r.
  - cbn [fold_left fst snd].
    assert (obj_put k v pre = pre ++ [(k, v)]) as ->.
    { unfold keys in Hnd, Hs. rewrite map_app in Hnd, Hs. cbn in Hnd, Hs.
      apply NoDup_app in Hnd as (_ & Hdisj & _).
      assert (k ∉ keys pre) as Hk.
      { intros Hin. apply (Hdisj _ Hin). apply list_elem_of_here. }
      apply StronglySorted_app_inv in Hs as (_ & _ & Hbefore).
      destruct (array_index k) as [i|] eqn:Hidx.
      - rewrite (obj_put_new_index _ _ _ i) by done.
        apply obj_insert_index_end; [done|].
        apply Forall_forall. intros x Hx. apply Hbefore; [done|].
        apply list_elem_of_here.
      - by apply obj_put_new_name. }
    rewrite IH; rewrite <- app_assoc; done.
Qed.

Lemma copy_ordered (o : obj) :
  NoDup (keys o) -> StronglySorted key_before (keys o) ->
  spread_into [] (VObj o) = o.
Proof. intros Hnd Hs. by apply (fold_put_ordered [] o). Qed.

Lemma Sorted_insert_index (i : N) (k : string) (v : value) (o : obj) :
  array_index k = Some i -> k ∉ keys o ->
  Sorted key_before (keys o) ->
  Sorted key_before (keys (obj_insert_index i k v o)).
Proof.
  intros Hidx. induction o as [|[k0 v0] o IH]; intros Hk Hs.
  - cbn. by repeat constructor.
  - unfold keys in Hk. cbn in Hk. apply not_elem_of_cons in Hk as [Hne Hk].
    cbn in Hs. apply Sorted_inv in Hs as [Hs Hhd].
    cbn [obj_insert_index].
    assert (forall j, array_index k0 = Some j -> (j <? i)%N = false ->
              key_before k k0) as Hlater.
    { intros j Hj Hlt. unfold key_before. rewrite Hidx, Hj.
      apply N.ltb_ge in Hlt. apply N.le_lteq in Hlt as [Hlt| ->]; [done|].
      destruct Hne. by apply (array_index_inj _ _ j). }
    destruct (array_index k0) as [j|] eqn:Hj.
    + destruct (j <? i)%N eqn:Hlt.
      * cbn. constructor; [by apply IH|].
        destruct o as [|[k1 v1] o]; cbn.
        -- constructor. unfold key_before. rewrite Hj, Hidx.
           by apply N.ltb_lt.
        -- cbn in Hhd. apply HdRel_inv in Hhd.
           destruct (array_index k1) as [j1|]; [destruct (j1 <? i)%N|]; cbn;
             constructor; try done;
             unfold key_before; rewrite Hj, Hidx; by apply N.ltb_lt.
      * cbn. constructor; [by constructor|]. constructor. by eapply Hlater.
    + cbn. constructor; [by constructor|]. constructor.
      by apply key_before_non_index.
Qed.

Lemma filter_insert_index (i : N) (k : string) (v : value) (o : obj) :
  array_index k = Some i ->
  List.filter non_index (keys (obj_insert_index i k v o))
  = List.filter non_index (keys o).
Proof.
  intros Hidx.
  assert (non_index k = false) as Hk.
  { unfold non_index, is_index. by rewrite Hidx. }
  unfold keys. induction o as [|[k0 v0] o IH]; cbn.
  - by rewrite Hk.
  - destruct (array_index k0) as [j|] eqn:Hj; [destruct (j <? i)%N|]; cbn;
      rewrite ?Hk; try done.
    by rewrite IH.
Qed.

Lemma Sorted_snoc_non_index (ks : list string) (k : string) :
  array_index k = None ->
  Sorted key_before ks -> Sorted key_before (ks ++ [k]).
Proof.
  intros Hidx. induction ks as [|k0 ks IH]; intros Hs; cbn.
  - by repeat constructor.
  - apply Sorted_inv in Hs as [Hs Hhd]. constructor; [by apply IH|].
    destruct ks as [|k1 ks]; cbn.
    + constructor. by apply key_before_non_index.
    + apply HdRel_inv in Hhd. by constructor.
Qed.

Lemma elem_of_keys_put (k k' : string) (v : value) (o : obj) :
  k' ∈ keys (obj_put k v o) <-> k' = k \/ k' ∈ keys o.
Proof.
  rewrite <- !obj_has_true. unfold obj_has. rewrite obj_get_put.
  destruct (String.eqb_spec k' k) as [->|Hne]; [tauto|].
  destruct (obj_get k' o); split; try done; tauto.
Qed.

(** One write keeps the own-property order. *)
Lemma enumerates_put (K : list string) (k : string) (v : value) (o : obj) :
  enumerates K (keys o) -> enumerates (K ++ [k]) (keys (obj_put k v o)).
Proof.
  intros (Hnd & Hmem & Hs & Hrest).
  split; [by apply NoDup_keys_put|]. split; [|split].
  - intros k'. rewrite elem_of_keys_put, elem_of_app, list_elem_of_singleton.
    rewrite Hmem. tauto.
  - destruct (decide (k ∈ keys o)) as [Hin|Hnotin].
    + by rewrite obj_put_existing.
    + apply Sorted_StronglySorted; [apply _|].
      apply StronglySorted_Sorted in Hs.
      destruct (array_index k) as [i|] eqn:Hidx.
      * rewrite (obj_put_new_index _ _ _ i) by done.
        by apply Sorted_insert_index.
      * rewrite obj_put_new_name by done.
        unfold keys. rewrite map_app. by apply Sorted_snoc_non_index.
  - rewrite List.filter_app. cbn [List.filter].
    destruct (decide (k ∈ keys o)) as [Hin|Hnotin].
    + rewrite obj_put_existing by done. rewrite Hrest.
      destruct (non_index k) eqn:Hk; [|by rewrite app_nil_r].
      rewrite first_appearances_snoc.
      assert (existsb (String.eqb k) (List.filter non_index K) = true) as ->.
      { apply existsb_eqb_elem. apply list_elem_of_In, filter_In.
        split; [|done]. apply list_elem_of_In. by apply Hmem. }
      by rewrite app_nil_r.
    + destruct (array_index k) as [i|] eqn:Hidx.
      * rewrite (obj_put_new_index _ _ _ i) by done.
        rewrite (filter_insert_index _ _ _ _ Hidx), Hrest.
        unfold non_index, is_index. rewrite Hidx. cbn. by rewrite app_nil_r.
      * rewrite obj_put_new_name by done.
        unfold keys. rewrite map_app, List.filter_app. cbn [map List.filter fst].
        unfold non_index at 2 4, is_index. rewrite Hidx. cbn [negb].
        fold (keys o). rewrite Hrest, first_appearances_snoc.
        assert (existsb (String.eqb k) (List.filter non_index K) = false) as ->;
          [|done].
        apply not_true_is_false. intros Hex%existsb_eqb_elem.
        apply list_elem_of_In, filter_In in Hex as [Hex _].
        apply Hnotin, Hmem. by apply list_elem_of_In.
Qed.

(** One step of a loop: copy the map, write one entry. *)
Lemma enumerates_write (K : list string) (k : string) (v : value) (o : obj) :
  enumerates K (keys o) ->
  enumerates (K ++ [k]) (keys (obj_put k v (spread_into [] (VObj o)))).
Proof.
  intros H. rewrite copy_ordered; [by apply enumerates_put|apply H..].
Qed.

Lemma enumerates_nil : enumerates [] (keys []).
Proof. split; [constructor|]. split; [done|]. split; [constructor|done]. Qed.

(** *** The loops keep the own-property order *)

Lemma enumerates_fold {B : Type} (key : B -> string) (step : obj -> B -> obj)
    (l : list B) (K : list string) (o : obj) :
  (forall o x, exists v,
     step o x = obj_put (key x) v (spread_into [] (VObj o))) ->
  enumerates K (keys o) ->
  enumerates (K ++ map key l) (keys (fold_left step l o)).
Proof.
  intros Hstep. revert K o. induction l as [|x l IH]; intros K o Ho.
  - by rewrite app_nil_r.
  - cbn [fold_left map]. rewrite (cons_middle (key x)), app_assoc.
    apply IH. destruct (Hstep o x) as [v ->]. by apply enumerates_write.
Qed.



Lemma placeholder_id (rt : Runtime) (common : Common.t) (id : Z) (label : value) :
  prop (VObj (placeholderQueryEditor rt common id label)) "id"
  = VStr (string_of_Z id).
Proof.
  unfold placeholderQueryEditor, prop.
  by rewrite obj_get_put_ne, obj_get_put_ne, obj_get_put_eq.
Qed.

Lemma addServerEditor_write (rt : Runtime) (common : Common.t)
    (activeTab : option ActiveTab.t) (o : obj) (tab : TabStateId.t) :
  exists v,
    addServerEditor rt common activeTab o tab
    = obj_put (string_of_Z (TabStateId.id tab)) v (spread_into [] (VObj o)).
Proof.
  unfold addServerEditor. by eexists.
Qed.

Lemma serverQueryEditors_order (rt : Runtime) (boot : BootstrapData.t) :
  enumerates
    (map (fun tab => string_of_Z (TabStateId.id tab))
       (default [] (BootstrapData.tab_state_ids boot)))
    (keys (serverQueryEditors rt boot)).
Proof.
  unfold serverQueryEditors.
  apply (enumerates_fold (fun tab => string_of_Z (TabStateId.id tab))
           _ _ [] []); [|apply enumerates_nil].
  intros o x. apply addServerEditor_write.
Qed.



(** ** Assembly *)




(** The sample above, run: the editors come out as 1, 2, 10, x. *)
Example sample_editor_order :
  exists st ls',
    getInitialState Sample.rt SampleOrder.boot
      (Sample.legacy SampleOrder.sqlLab) = Ok (st, ls')
    /\ map (fun e => prop e "id") (SqlLab.queryEditors (State.sqlLab st))
       = [VStr "1"; VStr "2"; VStr "10"; VStr "x"].
Proof. eexists _, _. split; reflexivity. Qed.

(** ** A complete run *)

(** The examples of the specification, through [getInitialState]: the
    renamed editor, the expansion tie-break and the overwritten query. *)
Example overlay_sample_run :
  exists st editor t1 t2 t3 q1,
    getInitialState Sample.rt SampleRun.boot (Sample.legacy SampleRun.sqlLab)
    = Ok (st, Sample.legacy SampleRun.sqlLab)
    /\ SqlLab.queryEditors (State.sqlLab st) = [VObj editor]
    /\ obj_get "name" editor = Some (VStr "Renamed")
    /\ obj_get "inLocalStorage" editor = Some (VBool true)
    /\ obj_get "loaded" editor = Some (VBool true)
    /\ SqlLab.tables (State.sqlLab st) = [VObj t1; VObj t2; VObj t3]
    /\ map (obj_get "expanded") [t1; t2; t3]
       = [Some (VBool true); Some (VBool false); Some (VBool true)]
    /\ obj_get "q1" (SqlLab.queries (State.sqlLab st)) = Some (VObj q1)
    /\ obj_get "status" q1 = Some (VStr "failed")
    /\ obj_get "inLocalStorage" q1 = Some (VBool true)
    /\ SqlLab.tabHistory (State.sqlLab st) = [VStr "5"].
Proof. do 6 eexists. repeat split; reflexivity. Qed.

(** No active tab, no legacy state, no tab records: empty sequences and no
    exception. *)
Example empty_run :
  exists st,
    getInitialState Sample.rt (Sample.boot []) ∅ = Ok (st, ∅)
    /\ SqlLab.queryEditors (State.sqlLab st) = []
    /\ SqlLab.tables (State.sqlLab st) = []
    /\ SqlLab.tabHistory (State.sqlLab st) = [].
Proof. eexists. repeat split; reflexivity. Qed.

(** * Further properties *)

(** ** The deduplicator beyond strings *)

Lemma dedupe_snoc (l : list value) (x : value) :
  dedupeTabHistory (l ++ [x]) = dedupe_step (dedupeTabHistory l) x.
Proof. unfold dedupeTabHistory. by rewrite fold_left_app. Qed.

Lemma dedupe_step_not_array (acc : list value) (x : value) :
  not_array x = true ->
  dedupe_step acc x
  = if strict_eq (last_or_undefined acc) x then acc else acc ++ [x].
Proof. intros Hx. unfold dedupe_step. by destruct x. Qed.

(** A result of the reduction is left as it is by a second pass. *)
Lemma dedupe_step_settled (acc : list value) (x : value) :
  not_array x = true ->
  dedupeTabHistory acc = acc ->
  dedupeTabHistory (dedupe_step acc x) = dedupe_step acc x.
Proof.
  intros Hx Hacc. rewrite dedupe_step_not_array by done.
  destruct (strict_eq (last_or_undefined acc) x) eqn:E; [done|].
  by rewrite dedupe_snoc, Hacc, dedupe_step_not_array, E.
Qed.

Lemma dedupe_fold_settled (l acc : list value) :
  Forall (fun x => not_array x = true) l ->
  dedupeTabHistory acc = acc ->
  dedupeTabHistory (fold_left dedupe_step l acc) = fold_left dedupe_step l acc.
Proof.
  intros Hl. revert acc. induction Hl as [|x l Hx Hl IH]; intros acc Hacc;
    [done|].
  cbn [fold_left]. apply IH. by apply dedupe_step_settled.
Qed.

(** X1.  [dedupeTabHistory] is idempotent on every history none of whose
    elements is an array: numbers, [null], objects and strings alike. *)
Theorem dedupeTabHistory_idempotent_values (l : list value) :
  Forall (fun x => not_array x = true) l ->
  dedupeTabHistory (dedupeTabHistory l) = dedupeTabHistory l.
Proof. intros Hl. by apply (dedupe_fold_settled l []). Qed.

Lemma dedupeTabHistory_idempotent_values_witness :
  let l := [VNum 1; VNum 1; VNull; VObj []; VObj []; VStr "a"] in
  Forall (fun x => not_array x = true) l
  /\ dedupeTabHistory (dedupeTabHistory l) = dedupeTabHistory l.
Proof.
  intros l.
  assert (Forall (fun x => not_array x = true) l) as H
    by (by repeat constructor).
  split; [exact H|exact (dedupeTabHistory_idempotent_values l H)].
Defined.

(** X2.  Deduplicating a history in two parts gives the same result as
    deduplicating it at once: the first part may be replaced by its
    deduplicated form. *)
Theorem dedupeTabHistory_incremental (xs ys : list value) :
  Forall (fun x => not_array x = true) xs ->
  dedupeTabHistory (dedupeTabHistory xs ++ ys) = dedupeTabHistory (xs ++ ys).
Proof.
  intros Hxs. unfold dedupeTabHistory at 1 3. rewrite !fold_left_app.
  fold (dedupeTabHistory xs). fold (dedupeTabHistory (dedupeTabHistory xs)).
  by rewrite dedupeTabHistory_idempotent_values.
Qed.

Lemma dedupeTabHistory_incremental_witness :
  let xs := [VStr "a"; VStr "a"; VStr "b"] in
  let ys := [VStr "b"; VStr "c"] in
  Forall (fun x => not_array x = true) xs
  /\ dedupeTabHistory (dedupeTabHistory xs ++ ys) = dedupeTabHistory (xs ++ ys)
  /\ dedupeTabHistory (xs ++ ys) = [VStr "a"; VStr "b"; VStr "c"].
Proof.
  intros xs ys.
  assert (Forall (fun x => not_array x = true) xs) as H
    by (by repeat constructor).
  split; [exact H|]. split; [exact (dedupeTabHistory_incremental xs ys H)|].
  reflexivity.
Defined.

Lemma plain_not_array (x : value) : plain x = true -> not_array x = true.
Proof. by destruct x. Qed.

Lemma last_or_undefined_Some (acc : list value) (x : value) :
  plain x = true ->
  strict_eq (last_or_undefined acc) x = true -> last acc = Some x.
Proof.
  intros Hx Heq. apply strict_eq_true in Heq. unfold last_or_undefined in Heq.
  destruct (last acc) as [y|]; cbn in Heq; [by subst|]. by subst x.
Qed.

(** X3.  On a history of plain values the result is no longer than the
    input, starts with the first id of the input and ends with its last
    id. *)
Theorem dedupeTabHistory_ends (l : list value) :
  Forall (fun x => plain x = true) l ->
  (length (dedupeTabHistory l) <= length l)%nat
  /\ head (dedupeTabHistory l) = head l
  /\ last (dedupeTabHistory l) = last l.
Proof.
  induction l as [|x l IH] using rev_ind; intros Hl; [done|].
  apply Forall_app in Hl as [Hl Hx]. apply Forall_inv in Hx.
  destruct (IH Hl) as (Hlen & Hhead & Hlast).
  rewrite dedupe_snoc.
  rewrite dedupe_step_not_array by (by apply plain_not_array).
  rewrite length_app, last_snoc. cbn [length].
  destruct (strict_eq (last_or_undefined (dedupeTabHistory l)) x) eqn:E.
  - pose proof (last_or_undefined_Some _ _ Hx E) as Hl'.
    split; [lia|]. split; [|done].
    rewrite Hhead. destruct l as [|y l]; [|done].
    by rewrite Hlast in Hl'.
  - rewrite length_app, last_snoc. cbn [length]. split; [lia|]. split; [|done].
    destruct l as [|y l].
    + done.
    + cbn [app head]. cbn [head] in Hhead.
      destruct (dedupeTabHistory (y :: l)) as [|z t]; [done|]. exact Hhead.
Qed.

Lemma dedupeTabHistory_ends_witness :
  let l := [VStr "a"; VStr "a"; VStr "b"; VStr "b"] in
  Forall (fun x => plain x = true) l
  /\ (length (dedupeTabHistory l) <= length l)%nat
  /\ head (dedupeTabHistory l) = Some (VStr "a")
  /\ last (dedupeTabHistory l) = Some (VStr "b").
Proof.
  intros l.
  assert (Forall (fun x => plain x = true) l) as H by (by repeat constructor).
  split; [exact H|]. exact (dedupeTabHistory_ends l H).
Defined.

(** X4.  An element that is itself an array is never taken for a repeat:
    [concat] splices its elements, unfiltered, after the history
    deduplicated so far. *)
Theorem dedupeTabHistory_splices_arrays (l xs : list value) :
  dedupeTabHistory (l ++ [VArr xs]) = dedupeTabHistory l ++ xs.
Proof.
  rewrite dedupe_snoc. unfold dedupe_step.
  assert (strict_eq (last_or_undefined (dedupeTabHistory l)) (VArr xs) = false)
    as ->; [|done].
  by destruct (last_or_undefined (dedupeTabHistory l)).
Qed.

(** ** The legacy slot: what is written, what throws *)

Lemma reconcile_overlay (rt : Runtime) (boot : BootstrapData.t) (ls : Storage)
    (sqlLab : value) :
  legacy_sqlLab ls = Some sqlLab ->
  reconcile rt boot ls
  = if nullish (prop sqlLab "queryEditors") then Throw TypeError
    else let* s' := overlayLegacy sqlLab (serverState rt boot) in Ok (s', ls).
Proof.
  rewrite reconcile_cases. unfold legacy_sqlLab, getItem.
  destruct (ls !! "redux") as [[| |v]|]; try done.
  destruct (truthy (opt_chain v "sqlLab")) eqn:Hsql; [|done].
  assert (opt_chain v "sqlLab" = prop v "sqlLab") as ->.
  { unfold opt_chain in *. by destruct (nullish v). }
  cbn zeta. cbn [andb]. unfold get.
  destruct (strict_eq (prop (prop (prop v "sqlLab") "queryEditors") "length")
              (VNum 0)) eqn:Hlen; [done|].
  cbn [negb]. intros [= <-].
  destruct (nullish (prop (prop v "sqlLab") "queryEditors")); [done|].
  cbn [bind]. by rewrite Hlen.
Qed.

(** X5.  A call that returns leaves [localStorage] as it found it, except
    that it removes the slot ["redux"] when the clean-slate test holds (also
    when [queryEditors] is the empty string); then the returned state is the
    server-only state.  No other key is ever touched, and a legacy state that
    has been overlaid stays in its slot. *)
Theorem storage_frame (rt : Runtime) (boot : BootstrapData.t)
    (ls ls' : Storage) (st : State.t) :
  getInitialState rt boot ls = Ok (st, ls') ->
  ls' = (if clean_slate ls then delete "redux" ls else ls)
  /\ (clean_slate ls = true -> st = serverOnly rt boot)
  /\ (forall k, k <> "redux" -> ls' !! k = ls !! k).
Proof.
  intros H. apply getInitialState_inv in H as (s & Hs & ->).
  assert (ls' = (if clean_slate ls then delete "redux" ls else ls)
          /\ (clean_slate ls = true -> s = serverState rt boot)) as [-> Hst].
  { rewrite reconcile_cases in Hs. unfold clean_slate, getItem.
    destruct (ls !! "redux") as [[| |v]|];
      [by injection Hs as <- <- | done | | by injection Hs as <- <-].
    destruct (truthy (opt_chain v "sqlLab")) eqn:Hsql;
      [|by injection Hs as <- <-].
    assert (opt_chain v "sqlLab" = prop v "sqlLab") as ->.
    { unfold opt_chain in *. by destruct (nullish v). }
    cbn zeta in Hs. cbn [andb]. unfold get in Hs.
    destruct (nullish (prop (prop v "sqlLab") "queryEditors")); [done|].
    cbn [bind] in Hs.
    destruct (strict_eq _ (VNum 0)).
    - by injection Hs as <- <-.
    - apply bind_Ok in Hs as (s' & _ & [= <- <-]). done. }
  split; [done|]. split.
  - intros Hc. unfold serverOnly. f_equal. by apply Hst.
  - intros k Hk. destruct (clean_slate ls); [|done].
    by apply lookup_delete_ne.
Qed.

Lemma storage_frame_witness :
  exists st ls',
    getInitialState Sample.rt Sample.boot5 SampleShapes.empty_text_editors
    = Ok (st, ls')
    /\ clean_slate SampleShapes.empty_text_editors = true
    /\ ls' = delete "redux" SampleShapes.empty_text_editors
    /\ st = serverOnly Sample.rt Sample.boot5
    /\ ls' !! "other" = Some Malformed.
Proof.
  assert (exists st ls',
            getInitialState Sample.rt Sample.boot5
              SampleShapes.empty_text_editors = Ok (st, ls'))
    as (st & ls' & H).
  { vm_compute. eexists _, _. reflexivity. }
  destruct (storage_frame _ _ _ _ _ H) as (Hls & Hst & Hother).
  exists st, ls'. split; [exact H|]. split; [reflexivity|].
  split; [exact Hls|]. split; [by apply Hst|].
  by rewrite Hother.
Defined.

(** *** Which legacy states throw *)

(** A loop returns when its body gets through every element, and throws
    otherwise. *)
Lemma foldM_forallb {A : Type} (ok : value -> bool)
    (f : A -> value -> result A) (l : list value) (a : A) :
  (forall a' x, if ok x then exists b, f a' x = Ok b
                else f a' x = Throw TypeError) ->
  if forallb ok l then exists b, foldM f l a = Ok b
  else foldM f l a = Throw TypeError.
Proof.
  intros Hf. revert a.
  induction l as [|x l IH]; intros a; cbn [forallb foldM]; [by eexists|].
  pose proof (Hf a x) as Hx. destruct (ok x); cbn [andb].
  - destruct Hx as [b ->]. cbn [bind]. apply IH.
  - by rewrite Hx.
Qed.

Lemma mergeQueryEditor_cases (u : value) (o : obj) (qe : value) :
  if mergeable qe then exists o', mergeQueryEditor u o qe = Ok o'
  else mergeQueryEditor u o qe = Throw TypeError.
Proof.
  unfold mergeQueryEditor, get, mergeable, keyable.
  destruct (nullish qe); [done|]. cbn [negb andb bind].
  destruct (ToString (prop qe "id")) as [k|e] eqn:E; cbn [bind];
    [by eexists|].
  by rewrite (ToString_TypeError _ _ E).
Qed.

Lemma mergeTable_cases (tables : obj) (acc : list value * obj) (table : value) :
  if mergeable table then exists acc', mergeTable tables acc table = Ok acc'
  else mergeTable tables acc table = Throw TypeError.
Proof.
  unfold mergeTable, get, mergeable, keyable. destruct acc as [seen m].
  destruct (nullish table); [done|]. cbn [negb andb bind].
  destruct (ToString (prop table "id")) as [k|e] eqn:E; cbn [bind];
    [by eexists|].
  by rewrite (ToString_TypeError _ _ E).
Qed.

Lemma mergeQuery_cases (o : obj) (query : value) :
  if mergeable query then exists o', mergeQuery o query = Ok o'
  else mergeQuery o query = Throw TypeError.
Proof.
  unfold mergeQuery, get, mergeable, keyable.
  destruct (nullish query); [done|]. cbn [negb andb bind].
  destruct (ToString (prop query "id")) as [k|e] eqn:E; cbn [bind];
    [by eexists|].
  by rewrite (ToString_TypeError _ _ E).
Qed.

Lemma overlayLegacy_shape (sqlLab : value) (s : Merged) :
  if well_shaped sqlLab then exists s', overlayLegacy sqlLab s = Ok s'
  else overlayLegacy sqlLab s = Throw TypeError.
Proof.
  unfold well_shaped, overlayLegacy.
  destruct (prop sqlLab "queryEditors") as [| | | | |editors|]; try done.
  cbn [as_array bind].
  pose proof (foldM_forallb mergeable
                (mergeQueryEditor
                   (js_or (prop sqlLab "unsavedQueryEditor")
                      (m_unsavedQueryEditor s)))
                editors (m_queryEditors s)
                (fun a x => mergeQueryEditor_cases _ a x)) as He.
  destruct (prop sqlLab "tables") as [| | | | |tables|];
    try (destruct (forallb mergeable editors);
         [by destruct He as [? ->]|by rewrite He]).
  destruct (forallb mergeable editors); [|by rewrite He].
  destruct He as [eds ->]. cbn [bind as_array andb].
  pose proof (foldM_forallb mergeable (mergeTable (m_tables s)) tables
                ([], m_tables s)
                (fun a x => mergeTable_cases _ a x)) as Ht.
  destruct (forallb mergeable tables); [|by rewrite Ht].
  destruct Ht as [tbls ->]. cbn [bind andb]. unfold Object_values.
  destruct (nullish (prop sqlLab "queries")); [done|]. cbn [bind negb andb].
  pose proof (foldM_forallb mergeable mergeQuery
                (map snd (own_enumerable (prop sqlLab "queries")))
                (m_queries s) (fun a x => mergeQuery_cases a x)) as Hq.
  destruct (forallb mergeable _); [|by rewrite Hq].
  destruct Hq as [qs ->]. cbn [bind andb].
  destruct (prop sqlLab "tabHistory"); cbn; by eauto.
Qed.

(** X6.  When a legacy state is overlaid, [getInitialState] returns (leaving
    the slot in place) exactly when the state is well shaped: [queryEditors]
    and [tables] are arrays, [queries] is not missing, none of their entries
    is [null] and the [id] of each has a property name, and [tabHistory] is
    there to be spread.  Otherwise a [TypeError] reaches the caller: also
    for an entry whose [id] is an object with a member [toString], which
    cannot be made a property name. *)
Theorem overlay_throws_unless_well_shaped (rt : Runtime)
    (boot : BootstrapData.t) (ls : Storage) (sqlLab : value) :
  legacy_sqlLab ls = Some sqlLab ->
  if well_shaped sqlLab
  then exists st, getInitialState rt boot ls = Ok (st, ls)
  else getInitialState rt boot ls = Throw TypeError.
Proof.
  intros Hlegacy. unfold getInitialState.
  rewrite (reconcile_overlay rt boot ls sqlLab Hlegacy).
  pose proof (overlayLegacy_shape sqlLab (serverState rt boot)) as Hshape.
  destruct (nullish (prop sqlLab "queryEditors")) eqn:Hnull.
  - assert (well_shaped sqlLab = false) as ->; [|done].
    unfold well_shaped. by destruct (prop sqlLab "queryEditors").
  - destruct (well_shaped sqlLab).
    + destruct Hshape as [s' ->]. by eexists.
    + by rewrite Hshape.
Qed.

Lemma overlay_throws_unless_well_shaped_witness :
  (legacy_sqlLab (Sample.legacy SampleShapes.complete)
   = Some SampleShapes.complete
   /\ exists st,
        getInitialState Sample.rt Sample.boot5
          (Sample.legacy SampleShapes.complete)
        = Ok (st, Sample.legacy SampleShapes.complete))
  /\ (legacy_sqlLab (Sample.legacy SampleShapes.no_history)
      = Some SampleShapes.no_history
      /\ getInitialState Sample.rt Sample.boot5
           (Sample.legacy SampleShapes.no_history) = Throw TypeError)
  /\ (legacy_sqlLab (Sample.legacy SampleShapes.null_editor)
      = Some SampleShapes.null_editor
      /\ getInitialState Sample.rt Sample.boot5
           (Sample.legacy SampleShapes.null_editor) = Throw TypeError)
  /\ (legacy_sqlLab (Sample.legacy SampleUnkeyable.sqlLab)
      = Some SampleUnkeyable.sqlLab
      /\ getInitialState Sample.rt Sample.boot5
           (Sample.legacy SampleUnkeyable.sqlLab) = Throw TypeError).
Proof.
  assert (legacy_sqlLab (Sample.legacy SampleShapes.complete)
          = Some SampleShapes.complete) as H1 by reflexivity.
  assert (legacy_sqlLab (Sample.legacy SampleShapes.no_history)
          = Some SampleShapes.no_history) as H2 by reflexivity.
  assert (legacy_sqlLab (Sample.legacy SampleShapes.null_editor)
          = Some SampleShapes.null_editor) as H3 by reflexivity.
  assert (legacy_sqlLab (Sample.legacy SampleUnkeyable.sqlLab)
          = Some SampleUnkeyable.sqlLab) as H4 by reflexivity.
  split; [split; [exact H1|]|split; [split; [exact H2|]|
    split; [split; [exact H3|]|split; [exact H4|]]]].
  - exact (overlay_throws_unless_well_shaped Sample.rt Sample.boot5 _ _ H1).
  - exact (overlay_throws_unless_well_shaped Sample.rt Sample.boot5 _ _ H2).
  - exact (overlay_throws_unless_well_shaped Sample.rt Sample.boot5 _ _ H3).
  - exact (overlay_throws_unless_well_shaped Sample.rt Sample.boot5 _ _ H4).
Defined.

(** ** The tab history *)

Lemma dedupe_fold_head (l acc : list value) (x : value) :
  exists t, fold_left dedupe_step l (x :: acc) = x :: t.
Proof.
  revert acc. induction l as [|y l IH]; intros acc; [by eexists|].
  cbn [fold_left]. unfold dedupe_step at 2.
  destruct (strict_eq _ y); [apply IH|].
  destruct y; cbn [concat1]; apply IH.
Qed.

(** X7.  With an active tab, the returned tab history always starts with the
    id of the active tab, whatever the legacy history holds. *)
Theorem tabHistory_starts_with_active_tab (rt : Runtime)
    (boot : BootstrapData.t) (ls ls' : Storage) (st : State.t)
    (a : ActiveTab.t) :
  getInitialState rt boot ls = Ok (st, ls') ->
  BootstrapData.active_tab boot = Some a ->
  head (SqlLab.tabHistory (State.sqlLab st))
  = Some (VStr (string_of_Z (ActiveTab.id a))).
Proof.
  intros H Ha. apply getInitialState_inv in H as (s & Hs & ->).
  cbn [assemble State.sqlLab SqlLab.tabHistory].
  assert (exists hist,
            m_tabHistory s = VStr (string_of_Z (ActiveTab.id a)) :: hist)
    as [hist ->].
  { apply reconcile_inv in Hs. destruct (legacy_sqlLab ls) as [sqlLab|].
    - destruct Hs as [Hs _]. apply overlayLegacy_inv in Hs.
      destruct Hs as (? & ? & ? & hist & ? & _ & _ & _ & _ & _ & _ & _ & -> & _).
      cbn [serverState m_tabHistory]. rewrite Ha. by eexists.
    - destruct Hs as [-> _]. cbn [serverState m_tabHistory]. rewrite Ha.
      by eexists. }
  unfold dedupeTabHistory. cbn [fold_left].
  change (dedupe_step [] (VStr (string_of_Z (ActiveTab.id a))))
    with [VStr (string_of_Z (ActiveTab.id a))].
  by destruct (dedupe_fold_head hist [] (VStr (string_of_Z (ActiveTab.id a))))
    as [t ->].
Qed.

Lemma tabHistory_starts_with_active_tab_witness :
  let ls := Sample.legacy SampleShapes.complete in
  exists st,
    getInitialState Sample.rt SampleShapes.boot_active ls = Ok (st, ls)
    /\ BootstrapData.active_tab SampleShapes.boot_active
       = Some SampleTab.active
    /\ head (SqlLab.tabHistory (State.sqlLab st)) = Some (VStr "5").
Proof.
  intros ls.
  assert (exists st,
            getInitialState Sample.rt SampleShapes.boot_active ls = Ok (st, ls))
    as [st H].
  { vm_compute. eexists. reflexivity. }
  exists st. split; [exact H|]. split; [reflexivity|].
  exact (tabHistory_starts_with_active_tab _ _ _ _ _ _ H eq_refl).
Defined.

(** ** The editor materializer *)

Lemma addServerEditor_tabEditor (rt : Runtime) (common : Common.t)
    (activeTab : option ActiveTab.t) (o : obj) (tab : TabStateId.t) :
  addServerEditor rt common activeTab o tab
  = obj_put (string_of_Z (TabStateId.id tab))
      (VObj (tabEditor rt common activeTab tab)) (spread_into [] (VObj o)).
Proof.
  unfold addServerEditor, tabEditor.
  destruct activeTab as [a|]; [destruct (ActiveTab.id a =? TabStateId.id tab)|];
    by rewrite ?placeholder_id.
Qed.

Lemma addServerEditor_writes (rt : Runtime) (common : Common.t)
    (activeTab : option ActiveTab.t) (o : obj) (tab : TabStateId.t) :
  NoDup (keys o) ->
  keyed_write (string_of_Z (TabStateId.id tab))
    (VObj (tabEditor rt common activeTab tab)) o
    (addServerEditor rt common activeTab o tab).
Proof.
  intros Ho. rewrite addServerEditor_tabEditor.
  by apply keyed_write_copy_put.
Qed.

Lemma placeholder_field (rt : Runtime) (common : Common.t) (id : Z)
    (label : value) (f : string) :
  obj_get f (placeholderQueryEditor rt common id label)
  = if String.eqb f "name" then Some label
    else if String.eqb f "loaded" then Some (VBool false)
    else if String.eqb f "id" then Some (VStr (string_of_Z id))
    else obj_get f (defaultQueryEditor rt common).
Proof.
  unfold placeholderQueryEditor. rewrite !obj_get_put.
  destruct (String.eqb f "name"); [done|].
  destruct (String.eqb f "loaded"); [done|].
  destruct (String.eqb f "id"); [done|].
  apply obj_get_copy. cbn. distinct_names.
Qed.

(** X8.  Editor materializer.  The editors built from the server payload are
    filed under the decimal ids of the tab records, one per record.  With
    pairwise distinct ids, the editor of the record that matches the active
    tab is loaded and takes its name, SQL (an absent one becomes the empty
    string) and query references from the active tab; every other editor is
    a placeholder: not loaded, named by the record's label, with the default
    SQL, the database id and row limit of the server configuration, no
    autorun and no query references. *)
Theorem editor_materializer (rt : Runtime) (boot : BootstrapData.t) :
  let tabs := default [] (BootstrapData.tab_state_ids boot) in
  let common := BootstrapData.common boot in
  (forall k,
     k ∈ keys (serverQueryEditors rt boot)
     <-> exists tab, tab ∈ tabs /\ k = string_of_Z (TabStateId.id tab))
  /\ (NoDup (map TabStateId.id tabs) ->
      forall tab, tab ∈ tabs ->
      exists editor,
        obj_get (string_of_Z (TabStateId.id tab)) (serverQueryEditors rt boot)
        = Some (VObj editor)
        /\ obj_get "id" editor = Some (VStr (string_of_Z (TabStateId.id tab)))
        /\ obj_get "loaded" editor
           = Some (VBool (is_active (BootstrapData.active_tab boot) tab))
        /\ match BootstrapData.active_tab boot with
           | Some a =>
               if ActiveTab.id a =? TabStateId.id tab then
                 obj_get "name" editor = Some (ActiveTab.label a)
                 /\ obj_get "sql" editor
                    = Some (js_or (ActiveTab.sql a) (VStr ""))
                 /\ obj_get "latestQueryId" editor
                    = Some (if truthy (ActiveTab.latest_query a)
                            then prop (ActiveTab.latest_query a) "id"
                            else VNull)
                 /\ obj_get "remoteId" editor
                    = Some (js_or (opt_chain (ActiveTab.saved_query a) "id")
                              VNull)
                 /\ obj_get "autorun" editor
                    = Some (VBool (truthy (ActiveTab.autorun a)))
               else True
           | None => True
           end
        /\ (is_active (BootstrapData.active_tab boot) tab = false ->
            obj_get "name" editor = Some (TabStateId.label tab)
            /\ obj_get "sql" editor
               = obj_get "sql" (defaultQueryEditor rt common)
            /\ obj_get "dbId" editor
               = Some (prop (VObj (Common.conf common)) "SQLLAB_DEFAULT_DBID")
            /\ obj_get "queryLimit" editor
               = Some (prop (VObj (Common.conf common)) "DEFAULT_SQLLAB_LIMIT")
            /\ obj_get "autorun" editor = Some (VBool false)
            /\ obj_get "latestQueryId" editor = Some VNull
            /\ obj_get "remoteId" editor = Some VNull)).
Proof.
  intros tabs common. unfold serverQueryEditors. fold tabs. fold common.
  set (activeTab := BootstrapData.active_tab boot).
  pose proof (addServerEditor_writes rt common activeTab) as Hstep.
  assert (NoDup (keys [])) as Hnil by constructor.
  split.
  - intros k.
    rewrite (keyed_fold_keys (fun tab => string_of_Z (TabStateId.id tab))
               (fun _ tab => VObj (tabEditor rt common activeTab tab))
               (addServerEditor rt common activeTab) Hstep) by done.
    rewrite list_elem_of_fmap. split.
    + intros [Hk|(tab & -> & Hin)]; [by apply elem_of_nil in Hk|].
      by exists tab.
    + intros (tab & Hin & ->). right. by exists tab.
  - intros Hids tab Hin. exists (tabEditor rt common activeTab tab).
    split.
    { apply (keyed_fold_lookup (fun tab => string_of_Z (TabStateId.id tab))
               (fun _ tab => VObj (tabEditor rt common activeTab tab))
               (addServerEditor rt common activeTab) Hstep); [done| |done].
      rewrite <- (map_map TabStateId.id string_of_Z).
      by apply (NoDup_fmap_2 string_of_Z). }
    unfold tabEditor, is_active.
    destruct activeTab as [a|];
      [destruct (ActiveTab.id a =? TabStateId.id tab)|].
    + repeat split; (reflexivity || done).
    + rewrite !placeholder_field. repeat split; (reflexivity || done).
    + rewrite !placeholder_field. repeat split; (reflexivity || done).
Qed.

Lemma editor_materializer_witness :
  let boot := SampleShapes.boot_active in
  let editors := serverQueryEditors Sample.rt boot in
  NoDup (map TabStateId.id (default [] (BootstrapData.tab_state_ids boot)))
  /\ (exists e5 e6,
        obj_get "5" editors = Some (VObj e5)
        /\ obj_get "6" editors = Some (VObj e6)
        /\ obj_get "loaded" e5 = Some (VBool true)
        /\ obj_get "sql" e5 = Some (VStr "SELECT 1")
        /\ obj_get "loaded" e6 = Some (VBool false)
        /\ obj_get "name" e6 = Some (VStr "Query 6")
        /\ obj_get "dbId" e6 = Some (VNum 1)).
Proof.
  intros boot editors.
  assert (NoDup (map TabStateId.id
                   (default [] (BootstrapData.tab_state_ids boot)))) as H.
  { apply (bool_decide_unpack _). vm_compute. exact I. }
  split; [exact H|].
  destruct (editor_materializer Sample.rt boot) as [_ Hspec].
  destruct (Hspec H (Sample.tab 5 "Query 5") (list_elem_of_here _ _))
    as (e5 & L5 & _ & Hl5 & Ha5 & _).
  destruct (Hspec H (Sample.tab 6 "Query 6")
              (list_elem_of_further _ _ _ (list_elem_of_here _ _)))
    as (e6 & L6 & _ & Hl6 & _ & Hp6).
  cbn in Ha5. destruct Ha5 as (_ & Hsql5 & _).
  destruct (Hp6 eq_refl) as (Hn6 & _ & Hdb6 & _).
  exists e5, e6. repeat split; assumption.
Defined.

(** ** More on the editor overlay *)

Lemma mergedQueryEditor_stamp (u existing qe : value) :
  obj_get "inLocalStorage" (mergedQueryEditor u existing qe)
  = Some (VBool true).
Proof.
  unfold mergedQueryEditor. by rewrite obj_get_put_ne, obj_get_put_eq.
Qed.

Lemma mergedQueryEditor_NoDup (u existing qe : value) :
  NoDup (keys (mergedQueryEditor u existing qe)).
Proof.
  unfold mergedQueryEditor.
  do 2 apply NoDup_keys_put. apply NoDup_keys_spread, NoDup_keys_put.
  do 2 apply NoDup_keys_spread. constructor.
Qed.

Lemma serverQueryEditors_Forall (P : string * value -> Prop) (rt : Runtime)
    (boot : BootstrapData.t) :
  (forall tab,
     P (string_of_Z (TabStateId.id tab),
        VObj (tabEditor rt (BootstrapData.common boot)
                (BootstrapData.active_tab boot) tab))) ->
  Forall P (serverQueryEditors rt boot).
Proof.
  intros HP. unfold serverQueryEditors.
  generalize (default [] (BootstrapData.tab_state_ids boot)). intros tabs.
  assert (Forall P []) as H by constructor.
  revert H. generalize (@nil (string * value)).
  induction tabs as [|tab tabs IH]; intros o Ho; [done|].
  cbn [fold_left]. apply IH. rewrite addServerEditor_tabEditor.
  apply Forall_put; [apply HP|by apply Forall_copy].
Qed.

Lemma tabEditor_no_stamp (rt : Runtime) (common : Common.t)
    (activeTab : option ActiveTab.t) (tab : TabStateId.t) :
  obj_get "inLocalStorage" (tabEditor rt common activeTab tab) = None.
Proof.
  unfold tabEditor.
  destruct activeTab as [a|]; [destruct (ActiveTab.id a =? TabStateId.id tab)|];
    by rewrite ?placeholder_field.
Qed.

(** X9.  Provenance.  No editor built from the server payload carries
    [inLocalStorage]; after the legacy overlay the editors that carry
    [inLocalStorage: true] are exactly those filed under the id of a legacy
    entry. *)
Theorem inLocalStorage_marks_legacy (rt : Runtime) (boot : BootstrapData.t)
    (u : value) (legacy : list value) (final : obj) :
  foldM (mergeQueryEditor u) legacy (serverQueryEditors rt boot) = Ok final ->
  forall k editor,
    obj_get k final = Some editor ->
    (prop editor "inLocalStorage" = VBool true <-> k ∈ map editor_key legacy).
Proof.
  intros Hfold k editor Hk.
  apply (foldM_Ok_fold _ (write_editor u)) in Hfold;
    [|intros a' x b'; apply mergeQueryEditor_write_editor]. subst final.
  destruct (serverQueryEditors_records rt boot) as [Hnd _].
  pose proof (write_editor_writes u) as Hstep.
  destruct (decide (k ∈ map editor_key legacy)) as [Hin|Hnotin].
  - split; [done|]. intros _.
    destruct (keyed_fold_split_last editor_key legacy k Hin)
      as (pre & qe & post & -> & <- & Hpost).
    rewrite (keyed_fold_last editor_key
               (fun e x => VObj (mergedQueryEditor u (default VUndefined e) x))
               (write_editor u) Hstep) in Hk by done.
    injection Hk as <-. cbn [prop]. by rewrite mergedQueryEditor_stamp.
  - split; [|done]. intros Hflag. exfalso.
    rewrite (keyed_fold_other editor_key
               (fun e x => VObj (mergedQueryEditor u (default VUndefined e) x))
               (write_editor u) Hstep) in Hk by done.
    apply obj_get_Some_elem in Hk.
    assert (Forall (fun kv => prop kv.2 "inLocalStorage" = VUndefined)
              (serverQueryEditors rt boot)) as Hserver.
    { apply serverQueryEditors_Forall. intros tab. cbn [snd prop].
      by rewrite tabEditor_no_stamp. }
    rewrite Forall_forall in Hserver. specialize (Hserver _ Hk).
    cbn [snd] in Hserver. congruence.
Qed.

Lemma inLocalStorage_marks_legacy_witness :
  let legacy := [VObj [("id", VStr "x"); ("name", VStr "X")]] in
  exists final e5 ex,
    foldM (mergeQueryEditor (VObj [])) legacy
      (serverQueryEditors Sample.rt Sample.boot5) = Ok final
    /\ obj_get "5" final = Some e5
    /\ obj_get "x" final = Some ex
    /\ prop e5 "inLocalStorage" <> VBool true
    /\ prop ex "inLocalStorage" = VBool true.
Proof.
  intros legacy.
  assert (exists final,
            foldM (mergeQueryEditor (VObj [])) legacy
              (serverQueryEditors Sample.rt Sample.boot5) = Ok final)
    as [final H].
  { vm_compute. eexists. reflexivity. }
  assert (exists e5 ex, obj_get "5" final = Some e5
                        /\ obj_get "x" final = Some ex) as (e5 & ex & H5 & Hx).
  { vm_compute in H. injection H as <-. by eexists _, _. }
  pose proof (inLocalStorage_marks_legacy _ _ _ _ _ H "5" e5 H5) as [M5 _].
  pose proof (inLocalStorage_marks_legacy _ _ _ _ _ H "x" ex Hx) as [_ Mx].
  exists final, e5, ex. split; [exact H|]. split; [exact H5|].
  split; [exact Hx|]. split.
  - intros Hflag. apply M5 in Hflag.
    apply elem_of_cons in Hflag as [Hflag|Hflag]; [done|].
    by apply elem_of_nil in Hflag.
  - apply Mx. apply list_elem_of_here.
Defined.

(** X10.  Legacy editors that share an id accumulate.  Whenever
    [getInitialState] returns, the returned editor under the id of a legacy
    entry that no later entry shares is that entry merged onto the editor
    as the earlier legacy entries left it: field by field the code's overlay
    (legacy fields over it, [name] set to the legacy [title || name], the
    matching unsaved patch, the two stamps). *)
Theorem editor_overlay_accumulates (rt : Runtime) (boot : BootstrapData.t)
    (ls ls' : Storage) (st : State.t) (us : obj) (pre post : list value)
    (ps : obj) :
  getInitialState rt boot ls = Ok (st, ls') ->
  unsaved_patch ls = VObj us ->
  NoDup (keys us) ->
  legacy_list "queryEditors" ls = pre ++ VObj ps :: post ->
  NoDup (keys ps) ->
  editor_key (VObj ps) ∉ map editor_key post ->
  exists s earlier merged,
    reconcile rt boot ls = Ok (s, ls')
    /\ foldM (mergeQueryEditor (VObj us)) pre (serverQueryEditors rt boot)
       = Ok earlier
    /\ obj_get (editor_key (VObj ps)) (m_queryEditors s) = Some (VObj merged)
    /\ VObj merged ∈ SqlLab.queryEditors (State.sqlLab st)
    /\ forall f,
         obj_get f merged
         = editor_overlay_field
             (existing_record (editor_key (VObj ps)) earlier) ps
             (if patch_applies (VObj us) (VObj ps) then Some us else None) f.
Proof.
  intros H Hpatch Hus Hsplit Hps Hpost.
  apply getInitialState_legacy in H as (s & seen & Hs & -> & Hfe & _ & _).
  rewrite Hpatch, Hsplit in Hfe.
  destruct (serverQueryEditors_records rt boot) as [Heds Hrec].
  destruct (overlay_editors_last us _ pre post ps _ Hus Heds Hrec Hps Hpost Hfe)
    as (earlier & merged & Hpre & Hm & Hfld & _).
  exists s, earlier, merged. split; [done|]. split; [done|]. split; [done|].
  split; [by apply (obj_get_values _ _ _ Hm)|done].
Qed.

Lemma editor_overlay_accumulates_witness :
  let ls := Sample.legacy SampleRepeated.sqlLab in
  let pre := [VObj SampleDuplicates.first] in
  (unsaved_patch ls = VObj []
   /\ NoDup (keys [])
   /\ legacy_list "queryEditors" ls = pre ++ [VObj SampleDuplicates.second]
   /\ NoDup (keys SampleDuplicates.second)
   /\ editor_key (VObj SampleDuplicates.second) ∉ map editor_key [])
  /\ exists st merged,
       getInitialState Sample.rt Sample.boot5 ls = Ok (st, ls)
       /\ VObj merged ∈ SqlLab.queryEditors (State.sqlLab st)
       /\ obj_get "name" merged = Some (VStr "Second")
       /\ obj_get "sql" merged = Some (VStr "SELECT 1").
Proof.
  intros ls pre.
  assert (exists st, getInitialState Sample.rt Sample.boot5 ls = Ok (st, ls))
    as [st H0].
  { vm_compute. eexists. reflexivity. }
  assert (unsaved_patch ls = VObj []) as H1 by reflexivity.
  assert (NoDup (keys [])) as H2 by constructor.
  assert (legacy_list "queryEditors" ls
          = pre ++ [VObj SampleDuplicates.second]) as H3 by reflexivity.
  assert (NoDup (keys SampleDuplicates.second)) as H4 by distinct_names.
  assert (editor_key (VObj SampleDuplicates.second) ∉ map editor_key [])
    as H5 by apply not_elem_of_nil.
  split; [done|].
  destruct (editor_overlay_accumulates Sample.rt Sample.boot5 ls ls st []
              pre [] SampleDuplicates.second H0 H1 H2 H3 H4 H5)
    as (s & earlier & merged & _ & He & _ & Hin & Hfld).
  exists st, merged. split; [exact H0|]. split; [exact Hin|].
  vm_compute in He. injection He as <-.
  rewrite !Hfld. by vm_compute.
Defined.

(** *** Editors are filed under their own id *)

Lemma mergedQueryEditor_id (us ps : obj) (existing : option obj)
    (key : string) :
  NoDup (keys us) -> NoDup (keys ps) ->
  ToString (prop (VObj ps) "id") = Ok key ->
  (forall es, existing = Some es ->
     NoDup (keys es) /\ ToString (prop (VObj es) "id") = Ok key) ->
  ToString
    (prop (VObj (mergedQueryEditor (VObj us)
                   (match existing with
                    | Some es => VObj es
                    | None => VUndefined
                    end) (VObj ps))) "id")
  = Ok key.
Proof.
  intros Hus Hps Hkey Hes. cbn [prop].
  rewrite mergedQueryEditor_field; [|done|done|by intros es [? _]%Hes].
  cbn [String.eqb Ascii.eqb Bool.eqb orb].
  assert (ToString
            (default VUndefined
               (overlay (obj_get "id" ps) (existing ≫= obj_get "id")))
          = Ok key) as Hbelow.
  { cbn [prop] in Hkey. destruct (obj_get "id" ps) as [v|] eqn:E; [done|].
    cbn [overlay]. destruct existing as [es|]; [|done].
    destruct (Hes es eq_refl) as [_ Hid]. exact Hid. }
  unfold patch_applies. cbn [prop].
  destruct (strict_eq (default VUndefined (obj_get "id" us))
              (default VUndefined (obj_get "id" ps))) eqn:Heq; [|done].
  cbn [mbind option_bind]. destruct (obj_get "id" us) as [w|] eqn:Ew; [|done].
  cbn [overlay default from_option]. apply strict_eq_true in Heq.
  cbn [default from_option] in Heq. cbn [prop] in Hkey.
  unfold id in *. by rewrite Heq.
Qed.

Lemma tabEditor_id (rt : Runtime) (common : Common.t)
    (activeTab : option ActiveTab.t) (tab : TabStateId.t) :
  prop (VObj (tabEditor rt common activeTab tab)) "id"
  = VStr (string_of_Z (TabStateId.id tab)).
Proof.
  unfold tabEditor.
  destruct activeTab as [a|]; [destruct (ActiveTab.id a =? TabStateId.id tab)|];
    by rewrite ?placeholder_id.
Qed.

Lemma tabEditor_is_record (rt : Runtime) (common : Common.t)
    (activeTab : option ActiveTab.t) (tab : TabStateId.t) :
  is_record (VObj (tabEditor rt common activeTab tab)).
Proof.
  unfold tabEditor.
  destruct activeTab as [a|]; [destruct (ActiveTab.id a =? TabStateId.id tab)|];
    auto using placeholder_is_record, active_is_record.
Qed.

Lemma serverQueryEditors_keyed_by_id (rt : Runtime) (boot : BootstrapData.t) :
  keyed_by_id (serverQueryEditors rt boot).
Proof.
  apply serverQueryEditors_Forall. intros tab. cbn [fst snd].
  split; [apply tabEditor_is_record|]. by rewrite tabEditor_id.
Qed.

Lemma mergeQueryEditor_keyed_by_id (us ps o o' : obj) :
  NoDup (keys us) -> NoDup (keys ps) ->
  keyed_by_id o ->
  mergeQueryEditor (VObj us) o (VObj ps) = Ok o' ->
  keyed_by_id o'.
Proof.
  intros Hus Hps Ho H. unfold mergeQueryEditor, get in H.
  cbn [nullish bind] in H. apply bind_Ok in H as (key & Hkey & [= <-]).
  apply Forall_put; [|by apply Forall_copy]. cbn [fst snd].
  split; [eexists; split; [reflexivity|apply mergedQueryEditor_NoDup]|].
  assert (Forall (fun kv => is_record kv.2) o) as Hrec.
  { eapply Forall_impl; [exact Ho|]. by intros kv [? _]. }
  destruct (obj_get_value_record key o Hrec) as [-> Hnd].
  apply mergedQueryEditor_id; [done..|].
  intros es Hes. split; [by apply Hnd|].
  unfold existing_record in Hes.
  destruct (obj_get key o) as [v|] eqn:E; [|done].
  destruct v; try done. injection Hes as ->.
  apply obj_get_Some_elem in E. unfold keyed_by_id in Ho.
  rewrite Forall_forall in Ho. by destruct (Ho _ E) as [_ Hid].
Qed.

Lemma overlay_editors_keyed_by_id (us : obj) (legacy : list value)
    (o final : obj) :
  NoDup (keys us) -> Forall is_record legacy ->
  keyed_by_id o ->
  foldM (mergeQueryEditor (VObj us)) legacy o = Ok final ->
  keyed_by_id final.
Proof.
  intros Hus Hlegacy. revert o.
  induction Hlegacy as [|qe legacy (ps & -> & Hps) Hlegacy IH]; intros o Ho H.
  - by injection H as <-.
  - cbn [foldM] in H. apply bind_Ok in H as (o1 & H1 & H).
    apply (IH o1); [|done].
    exact (mergeQueryEditor_keyed_by_id us ps o o1 Hus Hps Ho H1).
Qed.

(** X11.  One editor per id.  Whenever [getInitialState] returns, the legacy
    editors and the unsaved patch being objects, every editor of the final
    map is filed under the property name of its own [id]; so the returned
    editors have pairwise distinct ids, and every tab record of the server
    still has its editor among them. *)
Theorem editors_keyed_by_own_id (rt : Runtime) (boot : BootstrapData.t)
    (ls ls' : Storage) (st : State.t) (us : obj) :
  getInitialState rt boot ls = Ok (st, ls') ->
  unsaved_patch ls = VObj us ->
  NoDup (keys us) ->
  Forall is_record (legacy_list "queryEditors" ls) ->
  exists s ids,
    reconcile rt boot ls = Ok (s, ls')
    /\ SqlLab.queryEditors (State.sqlLab st) = map snd (m_queryEditors s)
    /\ keyed_by_id (m_queryEditors s)
    /\ map (fun e => ToString (prop e "id"))
         (SqlLab.queryEditors (State.sqlLab st))
       = map Ok ids
    /\ NoDup ids
    /\ forall tab,
         tab ∈ default [] (BootstrapData.tab_state_ids boot) ->
         exists e,
           e ∈ SqlLab.queryEditors (State.sqlLab st)
           /\ ToString (prop e "id") = Ok (string_of_Z (TabStateId.id tab)).
Proof.
  intros H Hpatch Hus Hlegacy.
  apply getInitialState_legacy in H as (s & seen & Hs & -> & Hfe & _ & _).
  rewrite Hpatch in Hfe.
  cbn [assemble State.sqlLab SqlLab.queryEditors].
  pose proof (overlay_editors_keyed_by_id us _ _ _ Hus Hlegacy
                (serverQueryEditors_keyed_by_id rt boot) Hfe) as Hfinal.
  pose proof (overlay_editors_fold _ _ _ _ Hfe) as Hall.
  pose proof (write_editor_writes (VObj us)) as Hstep.
  destruct (serverQueryEditors_records rt boot) as [Hnd _].
  set (val := fun (e : option value) (x : value) =>
                VObj (mergedQueryEditor (VObj us) (default VUndefined e) x)).
  assert (NoDup (keys (m_queryEditors s))) as Hndf.
  { rewrite Hall. by apply (keyed_fold_NoDup editor_key val _ Hstep). }
  exists s, (keys (m_queryEditors s)).
  split; [done|]. split; [done|]. split; [done|]. split; [|split; [done|]].
  - unfold keys. rewrite !map_map. apply map_ext_Forall.
    eapply Forall_impl; [exact Hfinal|]. by intros kv [_ ?].
  - intros tab Htab.
    assert (string_of_Z (TabStateId.id tab) ∈ keys (m_queryEditors s)) as Hk.
    { rewrite Hall.
      apply (keyed_fold_keys editor_key val _ Hstep); [done|].
      left. apply (serverQueryEditors_order rt boot).
      apply list_elem_of_fmap. by exists tab. }
    apply list_elem_of_fmap in Hk as ([k v] & Hkv & Hin). cbn [fst] in Hkv.
    exists v. split.
    + apply list_elem_of_fmap. by exists (k, v).
    + unfold keyed_by_id in Hfinal. rewrite Forall_forall in Hfinal.
      destruct (Hfinal _ Hin) as [_ Hid]. cbn [fst snd] in Hid. congruence.
Qed.

Lemma editors_keyed_by_own_id_witness :
  let ls := Sample.legacy SampleRepeated.sqlLab in
  (unsaved_patch ls = VObj []
   /\ NoDup (keys [])
   /\ Forall is_record (legacy_list "queryEditors" ls))
  /\ exists st ids e5,
       getInitialState Sample.rt Sample.boot5 ls = Ok (st, ls)
       /\ map (fun e => ToString (prop e "id"))
            (SqlLab.queryEditors (State.sqlLab st))
          = map Ok ids
       /\ NoDup ids
       /\ e5 ∈ SqlLab.queryEditors (State.sqlLab st)
       /\ ToString (prop e5 "id") = Ok "5".
Proof.
  intros ls.
  assert (exists st, getInitialState Sample.rt Sample.boot5 ls = Ok (st, ls))
    as [st H0].
  { vm_compute. eexists. reflexivity. }
  assert (unsaved_patch ls = VObj []) as H1 by reflexivity.
  assert (NoDup (keys [])) as H2 by constructor.
  assert (Forall is_record (legacy_list "queryEditors" ls)) as H3.
  { repeat constructor; (eexists; split; [reflexivity|distinct_names]). }
  split; [done|].
  destruct (editors_keyed_by_own_id Sample.rt Sample.boot5 ls ls st [] H0 H1 H2 H3)
    as (s & ids & _ & _ & _ & Hids & Hnd & Htabs).
  destruct (Htabs (Sample.tab 5 "Query 5") (list_elem_of_here _ _))
    as (e5 & Hin & Hid).
  exists st, ids, e5. split; [exact H0|]. split; [exact Hids|].
  split; [exact Hnd|]. split; [exact Hin|exact Hid].
Defined.

(** ** More on the table overlay *)

Lemma mergedTable_field (ps : obj) (existing : option obj) (expanded : bool)
    (f : string) :
  NoDup (keys ps) ->
  (forall es, existing = Some es -> NoDup (keys es)) ->
  obj_get f
    (mergedTable (match existing with
                  | Some es => VObj es
                  | None => VUndefined
                  end) (VObj ps) expanded)
  = if String.eqb f "expanded" then Some (VBool expanded)
    else overlay (obj_get f ps) (existing ≫= obj_get f).
Proof.
  intros Hps Hes. unfold mergedTable. rewrite obj_get_put.
  destruct (String.eqb f "expanded"); [done|].
  rewrite obj_get_spread_obj by done. unfold overlay.
  destruct (obj_get f ps); [done|].
  destruct existing as [es|]; [|done].
  rewrite obj_get_spread_obj by eauto. cbn. by destruct (obj_get f es).
Qed.

(** X12.  Table overlay precedence.  Whenever [getInitialState] returns, the
    returned table under a legacy table's id, when no later legacy table has
    that id, is the table the server built under that id, overwritten by the
    legacy fields, with [expanded] recomputed on top.  The entry it is merged
    onto is the one from before the overlay: an earlier legacy table with the
    same id leaves no field behind.  Tables under other ids are unchanged. *)
Theorem table_overlay_precedence (rt : Runtime) (boot : BootstrapData.t)
    (ls ls' : Storage) (st : State.t) (pre post : list value) (ps : obj) :
  getInitialState rt boot ls = Ok (st, ls') ->
  legacy_list "tables" ls = pre ++ VObj ps :: post ->
  NoDup (keys ps) ->
  table_key (VObj ps) ∉ map table_key post ->
  exists s merged,
    reconcile rt boot ls = Ok (s, ls')
    /\ obj_get (table_key (VObj ps)) (m_tables s) = Some (VObj merged)
    /\ VObj merged ∈ SqlLab.tables (State.sqlLab st)
    /\ (forall f,
          obj_get f merged
          = if String.eqb f "expanded"
            then Some (VBool (first_for_editor pre (VObj ps)))
            else overlay (obj_get f ps)
                   (existing_record (table_key (VObj ps))
                      (serverTables (BootstrapData.active_tab boot))
                      ≫= obj_get f))
    /\ (forall k, k ∉ map table_key (pre ++ VObj ps :: post) ->
          obj_get k (m_tables s)
          = obj_get k (serverTables (BootstrapData.active_tab boot))).
Proof.
  intros H Hsplit Hps Hpost.
  apply getInitialState_legacy in H as (s & seen & Hs & -> & _ & Hft & _).
  apply mergeTables_fold in Hft as [_ Hft]. rewrite Hsplit in Hft.
  set (tables := serverTables (BootstrapData.active_tab boot)) in *.
  destruct (serverTables_records (BootstrapData.active_tab boot))
    as [Hnd Hrec].
  fold tables in Hnd, Hrec.
  pose proof (write_table_writes tables) as Hstep.
  set (val := fun (_ : option value) (te : value * bool) =>
                VObj (mergedTable (obj_get_value (table_key te.1) tables)
                        te.1 te.2)).
  assert (obj_get (table_key (VObj ps)) (m_tables s)
          = Some (VObj (mergedTable (obj_get_value (table_key (VObj ps)) tables)
                          (VObj ps) (first_for_editor pre (VObj ps))))) as Hm.
  { rewrite Hft, expansion_split.
    rewrite (keyed_fold_last (fun te => table_key te.1) val
               (write_table tables) Hstep _ _
               (VObj ps, first_for_editor pre (VObj ps))); [reflexivity|done|].
    cbn [fst]. rewrite <- (map_map fst table_key). by rewrite expansion_fst. }
  exists s. eexists. split; [done|]. split; [exact Hm|]. split; [|split].
  - cbn [assemble State.sqlLab SqlLab.tables]. by apply (obj_get_values _ _ _ Hm).
  - intros f.
    destruct (obj_get_value_record (table_key (VObj ps)) tables Hrec)
      as [-> Hes].
    by apply mergedTable_field.
  - intros k Hk. rewrite Hft.
    apply (keyed_fold_other (fun te => table_key te.1) val
             (write_table tables) Hstep); [done|].
    rewrite <- (map_map fst table_key). by rewrite expansion_fst.
Qed.

Lemma table_overlay_precedence_witness :
  let ls := Sample.legacy SampleRepeated.sqlLab in
  let pre := [SampleDuplicates.table_first] in
  (legacy_list "tables" ls = pre ++ [VObj SampleDuplicates.table_second]
   /\ NoDup (keys SampleDuplicates.table_second)
   /\ table_key (VObj SampleDuplicates.table_second) ∉ map table_key [])
  /\ exists st merged,
       getInitialState Sample.rt SampleShapes.boot_active ls = Ok (st, ls)
       /\ VObj merged ∈ SqlLab.tables (State.sqlLab st)
       /\ obj_get "schema" merged = Some (VStr "s2")
       /\ obj_get "name" merged = Some (VStr "orders")
       /\ obj_get "expanded" merged = Some (VBool false).
Proof.
  intros ls pre.
  assert (exists st,
            getInitialState Sample.rt SampleShapes.boot_active ls = Ok (st, ls))
    as [st H0].
  { vm_compute. eexists. reflexivity. }
  assert (legacy_list "tables" ls
          = pre ++ [VObj SampleDuplicates.table_second]) as H1 by reflexivity.
  assert (NoDup (keys SampleDuplicates.table_second)) as H2
    by distinct_names.
  assert (table_key (VObj SampleDuplicates.table_second) ∉ map table_key [])
    as H3 by apply not_elem_of_nil.
  split; [done|].
  destruct (table_overlay_precedence Sample.rt SampleShapes.boot_active ls ls
              st pre [] SampleDuplicates.table_second H0 H1 H2 H3)
    as (s & merged & _ & _ & Hin & Hfld & _).
  exists st, merged. split; [exact H0|]. split; [exact Hin|].
  rewrite !Hfld. by vm_compute.
Defined.

(** ** The returned tab history has no adjacent repeats *)

Lemma no_adjacent_repeat_snoc (acc : list value) (x : value) :
  no_adjacent_repeat acc ->
  strict_eq (last_or_undefined acc) x = false ->
  no_adjacent_repeat (acc ++ [x]).
Proof.
  intros Hacc Hx pre a b post Heq.
  destruct post as [|z post] using rev_ind.
  - change (pre ++ [a; b]) with (pre ++ [a] ++ [b]) in Heq.
    rewrite app_assoc in Heq. apply app_inj_tail in Heq as [-> ->].
    by rewrite last_or_undefined_snoc in Hx.
  - clear IHpost. rewrite !app_comm_cons, app_assoc in Heq.
    apply app_inj_tail in Heq as [-> _]. by eapply Hacc.
Qed.

Lemma dedupe_fold_no_adjacent (l acc : list value) :
  Forall (fun x => not_array x = true) l ->
  no_adjacent_repeat acc ->
  no_adjacent_repeat (fold_left dedupe_step l acc).
Proof.
  intros Hl. revert acc. induction Hl as [|x l Hx Hl IH]; intros acc Hacc;
    [done|].
  cbn [fold_left]. apply IH. rewrite dedupe_step_not_array by done.
  destruct (strict_eq (last_or_undefined acc) x) eqn:E; [done|].
  by apply no_adjacent_repeat_snoc.
Qed.

(** X13.  When no element of the legacy tab history is an array, the
    returned tab history never holds the same id twice in a row. *)
Theorem returned_tabHistory_no_adjacent_repeat (rt : Runtime)
    (boot : BootstrapData.t) (ls ls' : Storage) (st : State.t) :
  getInitialState rt boot ls = Ok (st, ls') ->
  Forall (fun x => not_array x = true) (legacy_history ls) ->
  no_adjacent_repeat (SqlLab.tabHistory (State.sqlLab st)).
Proof.
  intros H Hhist. apply getInitialState_inv in H as (s & Hs & ->).
  cbn [assemble State.sqlLab SqlLab.tabHistory].
  assert (m_tabHistory s
          = serverTabHistory (BootstrapData.active_tab boot)
            ++ legacy_history ls) as ->.
  { apply reconcile_inv in Hs. unfold legacy_history.
    destruct (legacy_sqlLab ls) as [sqlLab|].
    - destruct Hs as [Hs _]. apply overlayLegacy_inv in Hs.
      by destruct Hs as (? & ? & ? & hist & ? & _ & _ & _ & -> & _ & _ & _
                         & -> & _).
    - destruct Hs as [-> _]. cbn [serverState m_tabHistory].
      by rewrite app_nil_r. }
  apply dedupe_fold_no_adjacent.
  - apply Forall_app. split; [|done].
    unfold serverTabHistory.
    destruct (BootstrapData.active_tab boot); by repeat constructor.
  - intros pre a b post Heq. by destruct pre.
Qed.

Lemma returned_tabHistory_no_adjacent_repeat_witness :
  let ls := Sample.legacy SampleOrder.sqlLab in
  exists st,
    getInitialState Sample.rt SampleOrder.boot ls = Ok (st, ls)
    /\ Forall (fun x => not_array x = true) (legacy_history ls)
    /\ no_adjacent_repeat (SqlLab.tabHistory (State.sqlLab st)).
Proof.
  intros ls.
  assert (exists st,
            getInitialState Sample.rt SampleOrder.boot ls = Ok (st, ls))
    as [st H].
  { vm_compute. eexists. reflexivity. }
  assert (Forall (fun x => not_array x = true) (legacy_history ls)) as H2.
  { vm_compute. by repeat constructor. }
  exists st. split; [exact H|]. split; [exact H2|].
  exact (returned_tabHistory_no_adjacent_repeat _ _ _ _ _ H H2).
Defined.
